(** * steam_friend_adder.py: a shallow embedding and its verified properties

    The development follows the class [SteamFriendAdder]:

    - [PyStr]: the [str] methods the script uses ([strip], [isdigit],
      [startswith], [in]).  A [str] is a Rocq [string], read as the sequence
      of its code points (all below 256), with the character classes
      Python gives those code points.
    - [Json]: a parsed HTTP body and the dynamic operations ([in], [[]],
      [len], iteration) that the script applies to it, with the faults Python
      raises on values of the wrong shape.  The identifiers of a friend list
      are the values the body holds under ['steamid'], of whatever type:
      nothing checks them against the annotation [List[str]], so they travel
      as values and fault where Python does ([set], [in], [strip]).
    - [World]: the state the methods act on: the clock (seconds, a rational
      number), the limiter's [request_times], the log of the HTTP requests
      sent and of the sleeps taken.
    - the methods themselves, in a state monad [M], with a [try] block as a
      computation [E] that returns or raises and [try_except] for its
      handlers.  The network and the file system are variables of the
      section: an oracle that answers a request in a given world, after some
      time, with a response or an exception.

    The logger is an output-only sink and is left out.  Definitions come
    first; the properties start at the heading of that name. *)

From Stdlib Require Import QArith Lqa Ascii.
From Stdlib Require String.
From stdpp Require Import gmap strings list pretty.

Local Open Scope Z_scope.

(** ** Python strings *)

Module PyStr.

(** [str.isspace] on one code point: TAB..CR, FS..US, SPACE, NEL, NBSP. *)
Definition isspace_char (c : ascii) : bool :=
  let n := N_of_ascii c in
  ((9 <=? n) && (n <=? 13) || (28 <=? n) && (n <=? 32)
   || (n =? 133) || (n =? 160))%N.

(** [str.isdigit] on one code point: 0..9 and the superscripts 2, 3, 1. *)
Definition isdigit_char (c : ascii) : bool :=
  let n := N_of_ascii c in
  ((48 <=? n) && (n <=? 57) || (n =? 178) || (n =? 179) || (n =? 185))%N.

Fixpoint all_chars (p : ascii -> bool) (s : string) : bool :=
  match s with
  | EmptyString => true
  | String c s' => p c && all_chars p s'
  end.

Definition is_empty (s : string) : bool :=
  match s with EmptyString => true | String _ _ => false end.

(** [s.isdigit()]: every character is a digit and there is at least one. *)
Definition isdigit (s : string) : bool :=
  negb (is_empty s) && all_chars isdigit_char s.

Fixpoint lstrip (s : string) : string :=
  match s with
  | EmptyString => EmptyString
  | String c s' => if isspace_char c then lstrip s' else s
  end.

Fixpoint rstrip (s : string) : string :=
  match s with
  | EmptyString => EmptyString
  | String c s' =>
      match rstrip s' with
      | EmptyString => if isspace_char c then EmptyString else String c EmptyString
      | r => String c r
      end
  end.

(** [s.strip()] *)
Definition strip (s : string) : string := rstrip (lstrip s).

(** [s.startswith(p)] *)
Definition startswith (s p : string) : bool := String.prefix p s.

(** [sub in s] *)
Fixpoint contains (sub s : string) : bool :=
  String.prefix sub s ||
  match s with
  | EmptyString => false
  | String _ s' => contains sub s'
  end.

End PyStr.

(** ** Parsed JSON bodies and the dynamic operations applied to them *)

Module Json.

Local Set Warnings "-register-all".

Inductive json :=
| JNull
| JBool (b : bool)
| JNum (q : Q)
| JStr (s : string)
| JArr (items : list json)
| JObj (fields : list (string * json)).

(** What Python raises when an operation meets a value of the wrong shape. *)
Inductive fault :=
| NotIterable (v : json)            (* [k in v], [for x in v] *)
| NotSubscriptable (v : json)       (* [v[k]] on None, bool, number *)
| BadIndex (v : json) (k : string)  (* [v[k]], [k] a str, on a list or str *)
| KeyError (k : string)             (* [v[k]] on a dict without [k] *)
| NoLen (v : json)                  (* [len(v)] *)
| Unhashable (v : json)             (* [set(...)], [v in a_set] on a list or dict *)
| NoAttribute (v : json) (name : string). (* [v.name] where [v] has no such attribute *)

(** The items of a dict are kept as a list; a key is looked up from the
    front. *)
Fixpoint lookup_field (k : string) (fields : list (string * json)) : option json :=
  match fields with
  | [] => None
  | (k', v) :: rest => if String.eqb k k' then Some v else lookup_field k rest
  end.

Definition is_str (k : string) (v : json) : bool :=
  match v with JStr s => String.eqb k s | _ => false end.

(** The value is a str, the one kind of value here with a [strip] method. *)
Definition is_string (v : json) : bool :=
  match v with JStr _ => true | _ => false end.

(** [k in v] for a str [k] *)
Definition py_in (k : string) (v : json) : fault + bool :=
  match v with
  | JObj fields => inr (bool_decide (is_Some (lookup_field k fields)))
  | JArr items => inr (existsb (is_str k) items)
  | JStr s => inr (PyStr.contains k s)
  | _ => inl (NotIterable v)
  end.

(** [v[k]] for a str [k] *)
Definition py_getitem (v : json) (k : string) : fault + json :=
  match v with
  | JObj fields =>
      match lookup_field k fields with
      | Some x => inr x
      | None => inl (KeyError k)
      end
  | JArr _ | JStr _ => inl (BadIndex v k)
  | _ => inl (NotSubscriptable v)
  end.

(** [len(v)] *)
Definition py_len (v : json) : fault + nat :=
  match v with
  | JObj fields => inr (length fields)
  | JArr items => inr (length items)
  | JStr s => inr (String.length s)
  | _ => inl (NoLen v)
  end.

(** The elements [for x in v] runs through. *)
Definition py_iter (v : json) : fault + list json :=
  match v with
  | JObj fields => inr (map (fun kv => JStr (fst kv)) fields)
  | JArr items => inr items
  | JStr s => inr (map (fun c => JStr (String c EmptyString)) (String.list_ascii_of_string s))
  | _ => inl (NotIterable v)
  end.

(** [outer in data and inner in data[outer]] *)
Definition has_nested (data : json) (outer inner : string) : fault + bool :=
  match py_in outer data with
  | inl f => inl f
  | inr false => inr false
  | inr true =>
      match py_getitem data outer with
      | inl f => inl f
      | inr sub => py_in inner sub
      end
  end.

(** [data[outer][inner]] *)
Definition get_nested (data : json) (outer inner : string) : fault + json :=
  match py_getitem data outer with
  | inl f => inl f
  | inr sub => py_getitem sub inner
  end.

(** [hash(v)] is defined: everything but a list or a dict. *)
Definition py_hashable (v : json) : bool :=
  match v with
  | JArr _ | JObj _ => false
  | _ => true
  end.

(** The number a value stands for in a comparison: [True] is 1 and [False]
    is 0. *)
Definition py_number (v : json) : option Q :=
  match v with
  | JNum q => Some q
  | JBool b => Some (if b then 1%Q else 0%Q)
  | _ => None
  end.

(** [a == b] between hashable values: strings by content, numbers (and
    bools) by value, [None] only with itself. *)
Definition py_eqb (a b : json) : bool :=
  match a, b with
  | JNull, JNull => true
  | JStr s, JStr t => String.eqb s t
  | _, _ =>
      match py_number a, py_number b with
      | Some x, Some y => Qeq_bool x y
      | _, _ => false
      end
  end.

(** [set(vs)]: the elements, once each of them has been hashed. *)
Fixpoint py_set (vs : list json) : fault + list json :=
  match vs with
  | [] => inr []
  | v :: vs' =>
      if py_hashable v then
        match py_set vs' with
        | inl f => inl f
        | inr set => inr (v :: set)
        end
      else inl (Unhashable v)
  end.

(** [v not in a_set] *)
Definition py_not_in_set (v : json) (set : list json) : fault + bool :=
  if py_hashable v then inr (negb (existsb (py_eqb v) set))
  else inl (Unhashable v).

(** [v != s] for a str [s] *)
Definition py_ne_str (v : json) (s : string) : bool := negb (is_str s v).

End Json.
Import Json.

(** ** Exceptions, requests and the world *)

(** The three classes the handlers tell apart, each with its [str(e)]. *)
Inductive pyexn :=
| Timeout (msg : string)            (* requests.exceptions.Timeout *)
| RequestException (msg : string)   (* any other RequestException *)
| Exception (msg : string).         (* any other Exception *)

Record Request := {
  url : string;
  params : list (string * string);
  timeout : Z
}.

(** A response: its status code and what [response.json()] gives. *)
Record Response := {
  status_code : Z;
  json_body : pyexn + json
}.

Record World := {
  clock : Q;                 (* time.time() *)
  request_times : list Q;    (* self.request_times *)
  sent : list Request;       (* every requests.get so far, oldest first *)
  slept : list Q             (* every time.sleep so far, oldest first *)
}.

Definition set_request_times (ts : list Q) (w : World) : World :=
  {| clock := clock w; request_times := ts; sent := sent w; slept := slept w |}.

(** [time.sleep(d)] *)
Definition sleep_world (d : Q) (w : World) : World :=
  {| clock := (clock w + d)%Q; request_times := request_times w;
     sent := sent w; slept := slept w ++ [d] |}.

(** ** The monad of the methods *)

Definition M (A : Type) : Type := World -> A * World.

Definition ret {A} (a : A) : M A := fun w => (a, w).

Definition bind {A B} (c : M A) (k : A -> M B) : M B :=
  fun w => let (a, w') := c w in k a w'.

(** A computation inside a [try] block: it returns or raises. *)
Definition E (A : Type) : Type := M (pyexn + A).

Definition ok {A} (a : A) : E A := ret (inr a).

Definition raise {A} (e : pyexn) : E A := ret (inl e).

Definition bind_exn {A B} (c : E A) (k : A -> E B) : E B :=
  bind c (fun r => match r with inl e => raise e | inr a => k a end).

Definition lift {A} (c : M A) : E A := bind c ok.

(** [try: body except e: handler(e)] *)
Definition try_except {A} (body : E A) (handler : pyexn -> M A) : M A :=
  bind body (fun r => match r with inl e => handler e | inr a => ret a end).

Notation "'let*' x ':=' c 'in' k" := (bind c (fun x => k))
  (at level 10, x name, c at level 100, k at level 200, only parsing).
Notation "'let!' x ':=' c 'in' k" := (bind_exn c (fun x => k))
  (at level 10, x name, c at level 100, k at level 200, only parsing).

Global Instance Qlt_dec : RelDecision Qlt.
Proof.
  intros x y. destruct (Qlt_le_dec x y) as [H|H]; [left; exact H|right].
  apply Qle_not_lt, H.
Defined.

Global Instance Qle_dec : RelDecision Qle.
Proof.
  intros x y. destruct (Qlt_le_dec y x) as [H|H]; [right|left; exact H].
  apply Qlt_not_le, H.
Defined.

(** ** The rate limiter *)

Definition max_requests_per_minute : nat := 30.

(** [_rate_limit_check]: prune, wait and reset when the ceiling is
    reached, then record the time read on entry. *)
Definition _rate_limit_check : M unit := fun w =>
  let current_time := clock w in
  let times := filter (fun t => current_time - t < 60)%Q (request_times w) in
  let w := set_request_times times w in
  let w :=
    if decide (max_requests_per_minute <= length times)%nat then
      match times with
      | oldest :: _ =>
          let wait_time := (60 - (current_time - oldest))%Q in
          if decide (0 < wait_time)%Q
          then set_request_times [] (sleep_world wait_time w)
          else w
      | [] => w  (* not reached: the window holds at least 30 entries here *)
      end
    else w in
  (tt, set_request_times (request_times w ++ [current_time]) w).

Global Arguments _rate_limit_check : simpl never.

(** [time.sleep(d)] as a command *)
Definition time_sleep (d : Q) : M unit := fun w => (tt, sleep_world d w).

(** ** Result dictionaries *)

Inductive pyval :=
| PyInt (n : Z)
| PyStr (s : string).

Definition fresh_results : gmap string pyval :=
  {[ "total" := PyInt 0; "success" := PyInt 0; "failed" := PyInt 0;
     "invalid" := PyInt 0; "skipped" := PyInt 0 ]}.

(** [d[k] += 1]; the loops apply it only to keys that hold an int. *)
Definition dict_incr (k : string) (d : gmap string pyval) : gmap string pyval :=
  match d !! k with
  | Some (PyInt n) => <[k := PyInt (n + 1)]> d
  | _ => d
  end.

Definition exn_str (e : pyexn) : string :=
  match e with Timeout msg | RequestException msg | Exception msg => msg end.

(** [for x in xs: acc = body(x, acc)] *)
Fixpoint for_each {A S} (xs : list A) (body : A -> S -> M S) (acc : S) : M S :=
  match xs with
  | [] => ret acc
  | x :: xs' => let* acc' := body x acc in for_each xs' body acc'
  end.

(** [for x in xs: ...] with a body that may raise: the accumulator as it
    stands when the loop is left, and the exception that left it, if any. *)
Fixpoint for_each_raising {A S} (xs : list A)
    (body : A -> S -> M (S * option pyexn)) (acc : S) : M (S * option pyexn) :=
  match xs with
  | [] => ret (acc, None)
  | x :: xs' =>
      let* r := body x acc in
      match r with
      | (acc', Some e) => ret (acc', Some e)
      | (acc', None) => for_each_raising xs' body acc'
      end
  end.

(** A list comprehension whose element expression may fault. *)
Fixpoint comprehension {A B} (f : A -> fault + B) (xs : list A) : fault + list B :=
  match xs with
  | [] => inr []
  | x :: xs' =>
      match f x with
      | inl e => inl e
      | inr y =>
          match comprehension f xs' with
          | inl e => inl e
          | inr ys => inr (y :: ys)
          end
      end
  end.

(** A list comprehension with a condition that may fault. *)
Fixpoint comprehension_if {A} (keep : A -> fault + bool) (xs : list A)
    : fault + list A :=
  match xs with
  | [] => inr []
  | x :: xs' =>
      match keep x with
      | inl e => inl e
      | inr b =>
          match comprehension_if keep xs' with
          | inl e => inl e
          | inr ys => inr (if b : bool then x :: ys else ys)
          end
      end
  end.

(** ** The class *)

Section SteamFriendAdder.

(** [self.api_key], [self.steam_id] *)
Variable api_key : string.
Variable steam_id : string.

(** The network: in world [w] a request takes some seconds and then
    answers or raises. *)
Variable network : World -> Request -> Q * (pyexn + Response).

(** The file system: [os.path.exists] and [open(...).readlines()]. *)
Variable path_exists : string -> bool.
Variable readlines : string -> pyexn + list string.

(** [str(e)] of a fault raised on a body. *)
Variable fault_str : fault -> string.

Definition STEAM_API_BASE : string := "https://api.steampowered.com".
Definition FRIEND_LIST_ENDPOINT : string := "ISteamUser/GetFriendList/v1".
Definition PLAYER_SUMMARIES_ENDPOINT : string := "ISteamUser/GetPlayerSummaries/v2".

Definition requests_get (url : string) (params : list (string * string))
    (timeout : Z) : E Response := fun w =>
  let request := {| url := url; params := params; timeout := timeout |} in
  let (elapsed, outcome) := network w request in
  (outcome,
   {| clock := (clock w + elapsed)%Q; request_times := request_times w;
      sent := sent w ++ [request]; slept := slept w |}).

Definition of_fault {A} (r : fault + A) : E A :=
  match r with
  | inl f => raise (Exception (fault_str f))
  | inr a => ok a
  end.

(** [response.json()] *)
Definition response_json (response : Response) : E json :=
  ret (json_body response).

Definition validate_steam_id (steam_id : string) : M (bool * string) :=
  let steam_id := PyStr.strip steam_id in
  if PyStr.is_empty steam_id then
    ret (false, "Empty Steam ID")
  else if negb (PyStr.isdigit steam_id) then
    ret (false, "Steam ID must be numeric")
  else if negb (String.length steam_id =? 17)%nat then
    ret (false, "Steam ID must be 17 digits (got "
                +:+ pretty (String.length steam_id) +:+ ")")
  else
    try_except
      (let! _ := lift _rate_limit_check in
       let url := STEAM_API_BASE +:+ "/" +:+ PLAYER_SUMMARIES_ENDPOINT in
       let params := [("key", api_key); ("steamids", steam_id)] in
       let! response := requests_get url params 10 in
       if status_code response =? 403 then
         ok (false, "Invalid API key or insufficient permissions")
       else if status_code response =? 429 then
         ok (false, "Rate limited by Steam API")
       else if negb (status_code response =? 200) then
         ok (false, "API error (status code: "
                    +:+ pretty (status_code response) +:+ ")")
       else
         let! data := response_json response in
         let! present := of_fault (has_nested data "response" "players") in
         if present : bool then
           let! players := of_fault (get_nested data "response" "players") in
           let! n := of_fault (py_len players) in
           if (0 <? n)%nat then ok (true, "Valid")
           else ok (false, "Steam ID not found")
         else ok (false, "Unexpected API response format"))
      (fun e =>
         match e with
         | Timeout _ => ret (false, "Request timeout")
         | RequestException msg => ret (false, "Network error: " +:+ msg)
         | Exception msg => ret (false, "Validation error: " +:+ msg)
         end).

Definition send_friend_request (target_steam_id : string) : M (bool * string) :=
  let* r := validate_steam_id target_steam_id in
  let '(is_valid, validation_msg) := r in
  if negb is_valid then
    ret (false, "Validation failed: " +:+ validation_msg)
  else
    ret (true, "Steam ID validated and ready for friend request").

(** One pass of the loop body of both batch methods, after [total] has
    been counted. *)
Definition attempt (steam_id : string) (results : gmap string pyval)
    : M (gmap string pyval) :=
  let* r := send_friend_request steam_id in
  let '(success, message) := r in
  let results :=
    if success then dict_incr "success" results
    else if PyStr.contains "Validation failed" message
         then dict_incr "invalid" results
         else dict_incr "failed" results in
  let* _ := time_sleep 1 in
  ret results.

Definition process_line (line : string) (results : gmap string pyval)
    : M (gmap string pyval) :=
  let steam_id := PyStr.strip line in
  if PyStr.is_empty steam_id || PyStr.startswith steam_id "#" then
    ret (dict_incr "skipped" results)
  else
    attempt steam_id (dict_incr "total" results).

Definition process_steam_ids_file (file_path : string) : M (gmap string pyval) :=
  if negb (path_exists file_path) then
    ret {[ "error" := PyStr "File not found" ]}
  else
    let results := fresh_results in
    (* try: the block leaves with the dict as it then stands *)
    let* r := match readlines file_path with
              | inl e => ret (Some e, results)
              | inr steam_ids =>
                  let* results := for_each steam_ids process_line results in
                  ret (None, results)
              end in
    let '(raised, results) := r in
    match raised with
    | Some e => ret (<["error" := PyStr (exn_str e)]> results)
    | None => ret results
    end.

Definition get_friend_list (steam_id : string)
    : M (bool * list json * string) :=
  try_except
    (let! _ := lift _rate_limit_check in
     let url := STEAM_API_BASE +:+ "/" +:+ FRIEND_LIST_ENDPOINT in
     let params := [("key", api_key); ("steamid", steam_id);
                    ("relationship", "friend")] in
     let! response := requests_get url params 10 in
     if status_code response =? 401 then
       ok (false, [], "Invalid API key")
     else if status_code response =? 403 then
       ok (false, [], "Friend list is private or user not found")
     else if status_code response =? 429 then
       ok (false, [], "Rate limited by Steam API")
     else if negb (status_code response =? 200) then
       ok (false, [], "API error (status code: "
                      +:+ pretty (status_code response) +:+ ")")
     else
       let! data := response_json response in
       let! present := of_fault (has_nested data "friendslist" "friends") in
       if present : bool then
         let! friends := of_fault (get_nested data "friendslist" "friends") in
         let! items := of_fault (py_iter friends) in
         let! friend_ids :=
           of_fault (comprehension
                       (fun friend => py_getitem friend "steamid") items) in
         ok (true, friend_ids, "")
       else ok (false, [], "No friends found or unexpected response format"))
    (fun e =>
       match e with
       | Timeout _ => ret (false, [], "Request timeout")
       | RequestException msg => ret (false, [], "Network error: " +:+ msg)
       | Exception msg =>
           ret (false, [], "Error retrieving friend list: " +:+ msg)
       end).

(** The comprehension of [get_mutual_friends] on lists of str, as the
    annotations have them: the target's friends that are neither in the set
    of your friends nor yourself. *)
Definition potential_friends (your_friends their_friends : list string)
    : list string :=
  let your_friends_set : gset string := list_to_set your_friends in
  filter (fun fid => (fid ∉ your_friends_set) ∧ (fid ≠ steam_id)) their_friends.

(** The same two lines on the values the bodies held: [set(your_friends)]
    hashes every element, [fid not in your_friends_set] hashes [fid], and
    either raises TypeError on a list or a dict. *)
Definition potential_values (your_friends their_friends : list json)
    : fault + list json :=
  match py_set your_friends with
  | inl f => inl f
  | inr your_friends_set =>
      comprehension_if
        (fun fid =>
           match py_not_in_set fid your_friends_set with
           | inl f => inl f
           | inr absent => inr (absent && py_ne_str fid steam_id)
           end) their_friends
  end.

(** No [try] here: what the set and the comprehension raise leaves the
    method. *)
Definition get_mutual_friends (target_steam_id : string)
    : E (bool * list json * string) :=
  let* r := get_friend_list steam_id in
  let '(success1, your_friends, error1) := r in
  if negb success1 then
    ok (false, [], "Failed to get your friend list: " +:+ error1)
  else
    let* r := get_friend_list target_steam_id in
    let '(success2, their_friends, error2) := r in
    if negb success2 then
      ok (false, [], "Failed to get target user's friend list: " +:+ error2)
    else
      let! potential :=
        of_fault (potential_values your_friends their_friends) in
      ok (true, potential, "").

(** One pass of the loop of [add_mutual_friends] on a candidate as it comes
    from the list.  [send_friend_request] hands it to [validate_steam_id],
    whose first statement, outside the [try], is [steam_id.strip()]: a str
    goes on, any other value raises AttributeError there, after [total] has
    been counted. *)
Definition add_item (friend_id : json) (results : gmap string pyval)
    : M (gmap string pyval * option pyexn) :=
  let results := dict_incr "total" results in
  match friend_id with
  | JStr friend_id =>
      let* results := attempt friend_id results in
      ret (results, None)
  | _ => ret (results, Some (Exception (fault_str (NoAttribute friend_id "strip"))))
  end.

(** The loop of [add_mutual_friends]. *)
Definition add_loop (friend_ids : list json) (results : gmap string pyval)
    : M (gmap string pyval * option pyexn) :=
  for_each_raising friend_ids add_item results.

(** No [try] here either: an exception of [get_mutual_friends] or of the
    loop leaves the method, and the counters with it. *)
Definition add_mutual_friends (target_steam_id : string)
    : E (gmap string pyval) :=
  let* r := validate_steam_id target_steam_id in
  let '(is_valid, validation_msg) := r in
  if negb is_valid then
    ok {[ "error" := PyStr ("Invalid target Steam ID: " +:+ validation_msg) ]}
  else
    let! r := get_mutual_friends target_steam_id in
    let '(success, friend_ids, error) := r in
    if negb success then
      ok {[ "error" := PyStr error ]}
    else if (length friend_ids =? 0)%nat then
      ok fresh_results
    else
      let* r := add_loop friend_ids fresh_results in
      match r with
      | (_, Some e) => raise e
      | (results, None) => ok results
      end.

End SteamFriendAdder.

(** ** The vocabulary of the specification *)

(** Each outcome of the specification is one of the [return] statements of
    [validate_steam_id]; [returned_by] gives the pair returned there. *)

Inductive FormatReason :=
| EmptyId
| NotNumeric
| WrongLength (actual : nat).

Inductive NetworkDetail :=
| TimedOut
| TransportFailure (detail : string).

Inductive ResponseDetail :=
| StatusCode (code : Z)
| MalformedBody.

Inductive ValidationOutcome :=
| Valid
| InvalidFormat (reason : FormatReason)
| NotFound
| AuthError
| RateLimited
| NetworkError (detail : NetworkDetail)
| UnexpectedResponse (detail : ResponseDetail).

Definition returned_by (o : ValidationOutcome) : bool * string :=
  match o with
  | Valid => (true, "Valid")
  | InvalidFormat EmptyId => (false, "Empty Steam ID")
  | InvalidFormat NotNumeric => (false, "Steam ID must be numeric")
  | InvalidFormat (WrongLength n) =>
      (false, "Steam ID must be 17 digits (got " +:+ pretty n +:+ ")")
  | NotFound => (false, "Steam ID not found")
  | AuthError => (false, "Invalid API key or insufficient permissions")
  | RateLimited => (false, "Rate limited by Steam API")
  | NetworkError TimedOut => (false, "Request timeout")
  | NetworkError (TransportFailure detail) => (false, "Network error: " +:+ detail)
  | UnexpectedResponse (StatusCode code) =>
      (false, "API error (status code: " +:+ pretty code +:+ ")")
  | UnexpectedResponse MalformedBody => (false, "Unexpected API response format")
  end.

(** The errors of [get_friend_list], likewise. *)
Module Fetch.

Inductive FetchError :=
| AuthError
| PrivateOrNotFound
| RateLimited
| UnexpectedResponse (detail : ResponseDetail)
| NetworkError (detail : NetworkDetail).

Definition returned_by (e : FetchError) : bool * list json * string :=
  match e with
  | AuthError => (false, [], "Invalid API key")
  | PrivateOrNotFound => (false, [], "Friend list is private or user not found")
  | RateLimited => (false, [], "Rate limited by Steam API")
  | UnexpectedResponse (StatusCode code) =>
      (false, [], "API error (status code: " +:+ pretty code +:+ ")")
  | UnexpectedResponse MalformedBody =>
      (false, [], "No friends found or unexpected response format")
  | NetworkError TimedOut => (false, [], "Request timeout")
  | NetworkError (TransportFailure detail) =>
      (false, [], "Network error: " +:+ detail)
  end.

End Fetch.

(** The two requests the script sends. *)
Definition summaries_request (api_key id : string) : Request :=
  {| url := STEAM_API_BASE +:+ "/" +:+ PLAYER_SUMMARIES_ENDPOINT;
     params := [("key", api_key); ("steamids", id)];
     timeout := 10 |}.

Definition friends_request (api_key id : string) : Request :=
  {| url := STEAM_API_BASE +:+ "/" +:+ FRIEND_LIST_ENDPOINT;
     params := [("key", api_key); ("steamid", id); ("relationship", "friend")];
     timeout := 10 |}.

(** The world in which a request is sent: the one the limiter leaves. *)
Definition after_admission (w : World) : World := snd (_rate_limit_check w).

Global Arguments after_admission : simpl never.

(** The candidate list in the words of the specification: the ids of the
    target list that are not in the own list and are not the own id. *)
Definition select_spec (self_id : string) (self_list target_list : list string)
    : list string :=
  filter (fun id => (id ∉ self_list) ∧ (id ≠ self_id)) target_list.

(** The identifier passes the format check: what is left by [strip] is 17
    digits. *)
Definition format_valid (steam_id : string) : Prop :=
  PyStr.isdigit (PyStr.strip steam_id) = true ∧
  String.length (PyStr.strip steam_id) = 17%nat.


(** The int held under a key of a result dictionary. *)
Definition counter (k : string) (d : gmap string pyval) : option Z :=
  match d !! k with
  | Some (PyInt n) => Some n
  | _ => None
  end.

(** The five counters of a result dictionary, when all are there:
    total, success, failed, invalid, skipped. *)
Definition tallies (d : gmap string pyval) : option (Z * Z * Z * Z * Z) :=
  match counter "total" d, counter "success" d, counter "failed" d,
        counter "invalid" d, counter "skipped" d with
  | Some t, Some s, Some f, Some i, Some k => Some (t, s, f, i, k)
  | _, _, _, _, _ => None
  end.



(** A line of the input file that the loop skips. *)
Definition skipped_line (line : string) : bool :=
  PyStr.is_empty (PyStr.strip line) || PyStr.startswith (PyStr.strip line) "#".

(** The loop body of [add_mutual_friends] at a candidate that is a str. *)
Definition add_one (api_key : string)
    (network : World -> Request -> Q * (pyexn + Response))
    (fault_str : fault -> string)
    (friend_id : string) (results : gmap string pyval) : M (gmap string pyval) :=
  attempt api_key network fault_str friend_id (dict_incr "total" results).

(** ** Driving the limiter from a synthetic clock *)

(** One call of [_rate_limit_check] as seen from outside: when it was
    issued, whether it slept, when it returned. *)
Record call := {
  issued : Q;
  blocked : bool;
  admitted : Q
}.

(** The caller idles for [gap] seconds. *)
Definition idle (gap : Q) (w : World) : World :=
  {| clock := (clock w + gap)%Q; request_times := request_times w;
     sent := sent w; slept := slept w |}.

(** A sequence of calls, each issued [gap] seconds after the previous one
    returned. *)
Fixpoint run_calls (gaps : list Q) (w : World) : list call * World :=
  match gaps with
  | [] => ([], w)
  | gap :: gaps' =>
      let w1 := idle gap w in
      let w2 := snd (_rate_limit_check w1) in
      let c := {| issued := clock w1;
                  blocked := negb (length (slept w2) =? length (slept w1))%nat;
                  admitted := clock w2 |} in
      let (cs, w3) := run_calls gaps' w2 in
      (c :: cs, w3)
  end.

(** The calls admitted in the window of [width] seconds that opens at [a]. *)
Definition admitted_in (a width : Q) (cs : list call) : list call :=
  filter (fun c => (a <= admitted c)%Q ∧ (admitted c < a + width)%Q) cs.

(** The seconds a schedule of gaps puts between its first call and its
    last, if no call delays the caller: the gaps before the calls after the
    first. *)
Definition span (gaps : list Q) : Q := foldr Qplus 0%Q (tail gaps).

(** The [n] records of a run that start at position [i]. *)
Definition stretch (i n : nat) (cs : list call) : list call := take n (drop i cs).

(** The timestamps that survive the pruning of a call made in [w]. *)
Definition live (w : World) : list Q :=
  filter (fun t => clock w - t < 60)%Q (request_times w).

(** The timestamps of the window that are not older than [t1]. *)
Definition since (t1 : Q) (w : World) : list Q :=
  filter (fun t => t1 <= t)%Q (request_times w).

(** ** Concrete worlds *)

Module Demo.

Definition world0 : World :=
  {| clock := 0; request_times := []; sent := []; slept := [] |}.


Definition me : string := "76561198000000001".
Definition ann : string := "76561198000000002".
Definition bob : string := "76561198000000003".
Definition cat : string := "76561198000000004".

Definition answer (status : Z) (body : json) : Q * (pyexn + Response) :=
  (0%Q, inr {| status_code := status; json_body := inr body |}).

Definition players (ps : list json) : json :=
  JObj [("response", JObj [("players", JArr ps)])].

Definition friends (ids : list string) : json :=
  JObj [("friendslist",
         JObj [("friends",
                JArr (map (fun id => JObj [("steamid", JStr id)]) ids))])].

(** Every request is answered with the same status and body. *)
Definition always (status : Z) (body : json)
    : World -> Request -> Q * (pyexn + Response) :=
  fun _ _ => answer status body.

(** Every request raises the same exception. *)
Definition failing (e : pyexn) : World -> Request -> Q * (pyexn + Response) :=
  fun _ _ => (0%Q, inl e).

(** A small Steam: every player exists; [me] is friends with [ann],
    [ann] with [me] and [bob], [bob] with [ann]; [cat]'s list is private. *)
Definition steam : World -> Request -> Q * (pyexn + Response) :=
  fun _ request =>
    match lookup_field "steamid" (map (fun p => (fst p, JStr (snd p))) (params request)) with
    | Some (JStr id) =>
        if String.eqb id me then answer 200 (friends [ann])
        else if String.eqb id ann then answer 200 (friends [me; bob])
        else if String.eqb id bob then answer 200 (friends [ann])
        else answer 403 JNull
    | _ => answer 200 (players [JObj [("steamid", JStr me)]])
    end.

(** A friend list whose entries hold the given values under 'steamid'. *)
Definition friends_of (values : list json) : json :=
  JObj [("friendslist",
         JObj [("friends",
                JArr (map (fun v => JObj [("steamid", v)]) values))])].

(** The id of [bob] as a JSON number. *)
Definition bob_number : json := JNum (inject_Z 76561198000000003).

(** The small Steam with one difference: the list of [ann] names [bob] by
    a number instead of a string. *)
Definition steam_with_number : World -> Request -> Q * (pyexn + Response) :=
  fun w request =>
    match lookup_field "steamid" (map (fun p => (fst p, JStr (snd p))) (params request)) with
    | Some (JStr id) =>
        if String.eqb id ann then answer 200 (friends_of [JStr me; bob_number])
        else steam w request
    | _ => steam w request
    end.

Definition no_file : string -> bool := fun _ => false.
Definition a_file : string -> bool := fun _ => true.
Definition unreadable : string -> pyexn + list string :=
  fun _ => inl (Exception "Permission denied").
Definition content (lines : list string) : string -> pyexn + list string :=
  fun _ => inr lines.

(** [str(e)] of a fault, up to the wording of the interpreter. *)
Definition describe (f : fault) : string :=
  match f with
  | NotIterable _ => "argument is not iterable"
  | NotSubscriptable _ => "object is not subscriptable"
  | BadIndex _ _ => "indices must be integers"
  | KeyError k => "'" +:+ k +:+ "'"
  | NoLen _ => "object has no len()"
  | Unhashable _ => "unhashable type"
  | NoAttribute _ name => "object has no attribute '" +:+ name +:+ "'"
  end.

End Demo.

(** ** Further vocabulary: pacing *)

(** Twice [k], as a number of seconds. *)
Definition two_times (k : nat) : Q := (2 * inject_Z (Z.of_nat k))%Q.

(** The timestamps of [ts] that are less than [width] seconds old at [now]. *)
Definition younger (now width : Q) (ts : list Q) : list Q :=
  filter (fun t => now - t < width)%Q ts.

(** A window is paced at [now] when, for every [k], at most [k] of its
    timestamps are less than [2 * k] seconds old: the trace that calls at
    least two seconds apart leave behind. *)
Definition paced (now : Q) (ts : list Q) : Prop :=
  ∀ k : nat, (length (younger now (two_times k) ts) <= k)%nat.

(** ** Further vocabulary: requests and bodies *)

(** The format check of [validate_steam_id] as a test. *)
Definition format_validb (steam_id : string) : bool :=
  PyStr.isdigit (PyStr.strip steam_id)
  && (String.length (PyStr.strip steam_id) =? 17)%nat.

(** A request to one of the two lookups, carrying the key. *)
Definition is_lookup (api_key : string) (request : Request) : Prop :=
  ∃ id, request = summaries_request api_key id
        ∨ request = friends_request api_key id.

(** An entry of a friend list that names [id], whatever else it holds. *)
Definition friend_entry (id : string) (item : json) : Prop :=
  ∃ fields, item = JObj fields ∧ lookup_field "steamid" fields = Some (JStr id).

(** An entry of a friend list that holds the value [v] under 'steamid'. *)
Definition value_entry (v : json) (item : json) : Prop :=
  ∃ fields, item = JObj fields ∧ lookup_field "steamid" fields = Some v.

(** The lines of a file that the loop counts. *)
Definition counted_lines (lines : list string) : list string :=
  filter (fun line => skipped_line line = false) lines.


(** From [w] to [w'] the request log has only grown, and only by lookups. *)
Definition only_lookups_sent (api_key : string) (w w' : World) : Prop :=
  ∃ new, sent w' = sent w ++ new ∧ Forall (is_lookup api_key) new.

(** The number of seconds that [n] pauses of one second take. *)
Definition seconds (n : nat) : Q := inject_Z (Z.of_nat n).

(** ** The script around the class: [load_config], [main] and the guard *)

(** What is typed at the prompts: the lines still to be read, each without
    its newline.  [input] at the end of the input raises EOFError.  What the
    script prints is output only and is left out, like the log. *)
Definition Console (A : Type) : Type := list string -> (pyexn + A) * list string.

Definition input : Console string := fun stdin =>
  match stdin with
  | [] => (inl (Exception "EOF when reading a line"), [])
  | line :: rest => (inr line, rest)
  end.

(** [load_config]: the environment first, a prompt for what it lacks. *)
Definition load_config (environ : gmap string string) : Console (string * string) :=
  fun stdin =>
    let api_key := default "" (environ !! "STEAM_API_KEY") in
    let steam_id := default "" (environ !! "STEAM_ID") in
    let asked_key :=
      if PyStr.is_empty api_key then
        match input stdin with
        | (inl e, stdin) => (inl e, stdin)
        | (inr line, stdin) => (inr (PyStr.strip line), stdin)
        end
      else (inr api_key, stdin) in
    match asked_key with
    | (inl e, stdin) => (inl e, stdin)
    | (inr api_key, stdin) =>
        let asked_id :=
          if PyStr.is_empty steam_id then
            match input stdin with
            | (inl e, stdin) => (inl e, stdin)
            | (inr line, stdin) => (inr (PyStr.strip line), stdin)
            end
          else (inr steam_id, stdin) in
        match asked_id with
        | (inl e, stdin) => (inl e, stdin)
        | (inr steam_id, stdin) => (inr (api_key, steam_id), stdin)
        end
    end.

(** How a call of [main] ends: it returns, calls [sys.exit], or lets an
    exception through. *)
Inductive ending :=
| Returned
| SystemExit (code : Z)
| Raised (e : pyexn).

(** [if 'error' not in results: ... else: sys.exit(1)] *)
Definition report (results : gmap string pyval) : ending :=
  match results !! "error" with
  | None => Returned
  | Some _ => SystemExit 1
  end.

Section Script.

Variable environ : gmap string string.
Variable network : World -> Request -> Q * (pyexn + Response).
Variable path_exists : string -> bool.
Variable readlines : string -> pyexn + list string.
Variable fault_str : fault -> string.

(** [os.path.isabs], [os.path.join], [os.getcwd()] *)
Variable isabs : string -> bool.
Variable join : string -> string -> string.
Variable getcwd : pyexn + string.

(** What setting up the log handlers raises, if anything. *)
Variable log_setup : option pyexn.

(** [main], from the prompts still to be answered and the world; the adder
    it builds starts with an empty window. *)
Definition main (stdin : list string) (w : World)
    : ending * (list string * World) :=
  match load_config environ stdin with
  | (inl e, stdin) => (Raised e, (stdin, w))
  | (inr (api_key, steam_id), stdin) =>
      if PyStr.is_empty api_key || PyStr.is_empty steam_id then
        (SystemExit 1, (stdin, w))
      else
        match log_setup with
        | Some e => (Raised e, (stdin, w))
        | None =>
            let w := set_request_times [] w in
            match input stdin with
            | (inl e, stdin) => (Raised e, (stdin, w))
            | (inr line, stdin) =>
                let mode := PyStr.strip line in
                if String.eqb mode "2" then
                  match input stdin with
                  | (inl e, stdin) => (Raised e, (stdin, w))
                  | (inr line, stdin) =>
                      let target_id := PyStr.strip line in
                      if PyStr.is_empty target_id then
                        (SystemExit 1, (stdin, w))
                      else
                        match add_mutual_friends api_key steam_id network
                                fault_str target_id w with
                        | (inl e, w) => (Raised e, (stdin, w))
                        | (inr results, w) => (report results, (stdin, w))
                        end
                  end
                else
                  match input stdin with
                  | (inl e, stdin) => (Raised e, (stdin, w))
                  | (inr line, stdin) =>
                      let file_path := PyStr.strip line in
                      let file_path :=
                        if PyStr.is_empty file_path then "steam_ids.txt"
                        else file_path in
                      let resolved :=
                        if negb (isabs file_path) then
                          match getcwd with
                          | inl e => inl e
                          | inr cwd => inr (join cwd file_path)
                          end
                        else inr file_path in
                      match resolved with
                      | inl e => (Raised e, (stdin, w))
                      | inr file_path =>
                          let (results, w) :=
                            process_steam_ids_file api_key network path_exists
                              readlines fault_str file_path w in
                          (report results, (stdin, w))
                      end
                  end
            end
        end
  end.

(** The guard at the foot of the script: the exit status of the process.
    (An interrupt from the keyboard can arrive at any time and is not
    modelled.) *)
Definition script (stdin : list string) (w : World) : Z * (list string * World) :=
  let (e, state) := main stdin w in
  (match e with
   | Returned => 0
   | SystemExit code => code
   | Raised _ => 1
   end, state).

End Script.

(** A concrete setting for the script. *)
Module DemoScript.

Definition configured : gmap string string :=
  {[ "STEAM_API_KEY" := "KEY"; "STEAM_ID" := Demo.me ]}.

Definition key_only : gmap string string := {[ "STEAM_API_KEY" := "KEY" ]}.

Definition isabs (path : string) : bool := String.prefix "/" path.

Definition join (directory name : string) : string :=
  directory +:+ "/" +:+ name.

Definition getcwd : pyexn + string := inr "/home/user".

(** The script on the small Steam, with a file of the given lines at the
    default place and nowhere else. *)
Definition run (environ : gmap string string) (lines : list string)
    (stdin : list string) : Z * (list string * World) :=
  script environ Demo.steam
    (fun path => String.eqb path "/home/user/steam_ids.txt")
    (Demo.content lines) Demo.describe isabs join getcwd None stdin Demo.world0.

End DemoScript.

(** * Properties *)

(** ** The limiter leaves the request log alone *)

Lemma rate_limit_check_eq w : _rate_limit_check w = (tt, after_admission w).
Proof. reflexivity. Qed.

Lemma rate_limit_check_sent w : sent (after_admission w) = sent w.
Proof.
  unfold after_admission, _rate_limit_check. cbn.
  repeat (case_decide || case_match); reflexivity.
Qed.

(** ** Strings *)

Module StrFacts.

Import PyStr.
Local Arguments String.append !_ _ / : simpl nomatch.

Lemma prefix_app (p t : string) : String.prefix p (p +:+ t) = true.
Proof.
  induction p as [|c p IH]; simpl.
  - by destruct t.
  - destruct (Ascii.ascii_dec c c); [exact IH | congruence].
Qed.

Lemma contains_prefix (p s : string) :
  String.prefix p s = true -> contains p s = true.
Proof. destruct s; simpl; intros ->; reflexivity. Qed.

Lemma contains_app (p t : string) : contains p (p +:+ t) = true.
Proof. apply contains_prefix, prefix_app. Qed.

Lemma is_empty_true (s : string) : is_empty s = true <-> s = EmptyString.
Proof. destruct s; simpl; split; congruence. Qed.

Lemma lstrip_spaces (w t : string) :
  all_chars isspace_char w = true -> lstrip (w +:+ t) = lstrip t.
Proof.
  induction w as [|c w IH]; simpl; [done|].
  intros [Hc Hw]%andb_prop. rewrite Hc. auto.
Qed.

Lemma rstrip_spaces (w : string) :
  all_chars isspace_char w = true -> rstrip w = EmptyString.
Proof.
  induction w as [|c w IH]; simpl; [done|].
  intros [Hc Hw]%andb_prop. rewrite (IH Hw), Hc. done.
Qed.

Lemma rstrip_app_spaces (t w : string) :
  all_chars isspace_char w = true -> rstrip (t +:+ w) = rstrip t.
Proof.
  intros Hw. induction t as [|c t IH]; simpl.
  - by apply rstrip_spaces.
  - by rewrite IH.
Qed.

(** A string of non-space characters is a fixed point of both strips. *)
Lemma lstrip_id (s : string) :
  all_chars (fun c => negb (isspace_char c)) s = true -> lstrip s = s.
Proof.
  destruct s as [|c s]; simpl; [done|].
  intros [Hc _]%andb_prop. by destruct (isspace_char c).
Qed.

Lemma rstrip_id (s : string) :
  all_chars (fun c => negb (isspace_char c)) s = true -> rstrip s = s.
Proof.
  induction s as [|c s IH]; simpl; [done|].
  intros [Hc Hs]%andb_prop. rewrite (IH Hs).
  destruct s; [|done]. by destruct (isspace_char c).
Qed.

Lemma all_chars_impl (p q : ascii -> bool) (s : string) :
  (forall c, p c = true -> q c = true) ->
  all_chars p s = true -> all_chars q s = true.
Proof.
  intros Hpq. induction s as [|c s IH]; simpl; [done|].
  intros [Hc Hs]%andb_prop. rewrite (Hpq _ Hc), (IH Hs). done.
Qed.

Lemma digit_not_space (c : ascii) :
  isdigit_char c = true -> negb (isspace_char c) = true.
Proof.
  unfold isdigit_char, isspace_char. generalize (N_of_ascii c). intros n H.
  apply negb_true_iff, not_true_iff_false. intros Hs.
  repeat (apply orb_prop in H as [H|H] || apply andb_prop in H as [H ?]);
  repeat (apply orb_prop in Hs as [Hs|Hs] || apply andb_prop in Hs as [Hs ?]);
  repeat match goal with
    | H : (_ <=? _)%N = true |- _ => apply N.leb_le in H
    | H : (_ =? _)%N = true |- _ => apply N.eqb_eq in H
    end; lia.
Qed.

(** Stripping a block of non-space characters wrapped in whitespace
    returns the block. *)
Lemma strip_wrapped (w1 d w2 : string) :
  all_chars isspace_char w1 = true ->
  all_chars isspace_char w2 = true ->
  all_chars (fun c => negb (isspace_char c)) d = true ->
  strip (w1 +:+ d +:+ w2) = d.
Proof.
  intros H1 H2 Hd. unfold strip. rewrite lstrip_spaces by done.
  destruct d as [|c d].
  - simpl. assert (lstrip w2 = EmptyString) as ->; [|done].
    clear -H2. induction w2 as [|a w2 IH]; simpl in *; [done|].
    apply andb_prop in H2 as [-> ?]. auto.
  - assert (lstrip (String c d +:+ w2) = String c d +:+ w2) as ->.
    { simpl in *. apply andb_prop in Hd as [Hc _]. by destruct (isspace_char c). }
    rewrite rstrip_app_spaces by done. by apply rstrip_id.
Qed.

Lemma strip_spaces (w : string) :
  all_chars isspace_char w = true -> strip w = EmptyString.
Proof.
  intros Hw. pose proof (strip_wrapped w EmptyString EmptyString Hw eq_refl eq_refl) as H.
  simpl in H. replace (w +:+ "") with w in H; [done|].
  clear. induction w; simpl; congruence.
Qed.

End StrFacts.

(** ** Candidate selection *)

Section Selection.

Variables (api_key self_id : string).
Variable network : World -> Request -> Q * (pyexn + Response).
Variable fault_str : fault -> string.

Lemma potential_friends_select (self_list target_list : list string) :
  potential_friends self_id self_list target_list
  = select_spec self_id self_list target_list.
Proof.
  unfold potential_friends, select_spec. apply list_filter_iff.
  intros id. by rewrite elem_of_list_to_set.
Qed.

Lemma elem_of_potential_friends (self_list target_list : list string) id :
  id ∈ potential_friends self_id self_list target_list
  ↔ id ∈ target_list ∧ (id ∉ self_list) ∧ id ≠ self_id.
Proof.
  rewrite potential_friends_select. unfold select_spec.
  rewrite list_elem_of_filter. tauto.
Qed.

(** On lists of str the set and the comprehension raise nothing and select
    what [potential_friends] selects. *)
Lemma py_set_strings (ids : list string) :
  py_set (JStr <$> ids) = inr (JStr <$> ids).
Proof.
  induction ids as [|id ids IH]; [done|].
  rewrite fmap_cons. cbn [py_set py_hashable]. by rewrite IH.
Qed.

Lemma py_in_strings (id : string) (ids : list string) :
  existsb (py_eqb (JStr id)) (JStr <$> ids) = bool_decide (id ∈ ids).
Proof.
  induction ids as [|x ids IH]; [done|].
  rewrite fmap_cons. cbn [existsb py_eqb]. rewrite IH.
  destruct (String.eqb_spec id x) as [->|Hne].
  - simpl. symmetry. apply bool_decide_eq_true. left.
  - simpl. apply bool_decide_ext. rewrite elem_of_cons. tauto.
Qed.

Lemma potential_values_strings (self_list target_list : list string) :
  potential_values self_id (JStr <$> self_list) (JStr <$> target_list)
  = inr (JStr <$> potential_friends self_id self_list target_list).
Proof.
  unfold potential_values, potential_friends. rewrite py_set_strings.
  induction target_list as [|t ts IH]; [done|].
  rewrite fmap_cons. cbn [comprehension_if]. rewrite IH.
  unfold py_not_in_set, py_ne_str. cbn [py_hashable is_str].
  rewrite py_in_strings, filter_cons. f_equal.
  destruct (String.eqb_spec self_id t) as [->|Hne].
  - rewrite andb_false_r. rewrite decide_False; [done|]. tauto.
  - rewrite andb_true_r. destruct (decide (t ∈ self_list)) as [Hin|Hout].
    + rewrite bool_decide_eq_true_2 by done. simpl.
      rewrite decide_False; [done|]. rewrite elem_of_list_to_set. tauto.
    + rewrite bool_decide_eq_false_2 by done. simpl.
      rewrite decide_True; [done|]. rewrite elem_of_list_to_set. split; congruence.
Qed.

(** Two successful fetches of lists of str make [get_mutual_friends]
    succeed with the comprehension over the two fetched lists. *)
Lemma get_mutual_friends_success target w w1 w2 self_list target_list e1 e2 :
  get_friend_list api_key network fault_str self_id w
    = ((true, JStr <$> self_list, e1), w1) ->
  get_friend_list api_key network fault_str target w1
    = ((true, JStr <$> target_list, e2), w2) ->
  get_mutual_friends api_key self_id network fault_str target w
    = (inr (true, JStr <$> potential_friends self_id self_list target_list, ""),
       w2).
Proof.
  intros H1 H2. unfold get_mutual_friends, bind. rewrite H1. simpl.
  rewrite H2. simpl. unfold bind_exn, bind.
  rewrite potential_values_strings. reflexivity.
Qed.

(** C2. For all own ids and all pairs of lists, the candidates computed by
    [get_mutual_friends] are exactly the elements of the target list that
    are not in the own list and differ from the own id, in the order of the
    target list; so no candidate is the own id or a member of the own list,
    whatever duplicates and overlaps the lists have.  When both fetches
    succeed this list is what [get_mutual_friends] returns. *)
Theorem C2_candidates_are_the_filtered_target_list
    (self_list target_list : list string) :
  potential_friends self_id self_list target_list
    = select_spec self_id self_list target_list
  ∧ potential_friends self_id self_list target_list `sublist_of` target_list
  ∧ (∀ id, id ∈ potential_friends self_id self_list target_list ->
           id ≠ self_id ∧ id ∉ self_list)
  ∧ (∀ target w w1 w2 e1 e2,
       get_friend_list api_key network fault_str self_id w
         = ((true, JStr <$> self_list, e1), w1) ->
       get_friend_list api_key network fault_str target w1
         = ((true, JStr <$> target_list, e2), w2) ->
       get_mutual_friends api_key self_id network fault_str target w
         = (inr (true, JStr <$> select_spec self_id self_list target_list, ""),
            w2)).
Proof.
  split_and!.
  - apply potential_friends_select.
  - apply sublist_filter.
  - intros id Hid. apply elem_of_potential_friends in Hid. tauto.
  - intros * H1 H2. rewrite <- potential_friends_select.
    eapply get_mutual_friends_success; eassumption.
Qed.

End Selection.

(** C2 at work: [me] asks for the friends of [ann]. *)
Lemma C2_witness :
  fst (get_mutual_friends "KEY" Demo.me Demo.steam Demo.describe Demo.ann Demo.world0)
  = inr (true, JStr <$> select_spec Demo.me [Demo.ann] [Demo.me; Demo.bob], "").
Proof.
  pose proof (C2_candidates_are_the_filtered_target_list "KEY" Demo.me
                Demo.steam Demo.describe [Demo.ann] [Demo.me; Demo.bob])
    as (_ & _ & _ & H).
  erewrite (H Demo.ann Demo.world0); [reflexivity| |];
    vm_compute; reflexivity.
Defined.

Section EmptySelection.

Variables (api_key self_id : string).
Variable network : World -> Request -> Q * (pyexn + Response).
Variable fault_str : fault -> string.






End EmptySelection.



(** ** Validation *)

Section Validation.

Variable api_key : string.
Variable network : World -> Request -> Q * (pyexn + Response).
Variable fault_str : fault -> string.

Local Abbreviation validate := (validate_steam_id api_key network fault_str).
Local Abbreviation lookup_of s w :=
  (network (after_admission w) (summaries_request api_key (PyStr.strip s))).

Lemma format_valid_checks s :
  format_valid s ->
  PyStr.is_empty (PyStr.strip s) = false
  ∧ PyStr.isdigit (PyStr.strip s) = true
  ∧ (String.length (PyStr.strip s) =? 17)%nat = true.
Proof.
  intros [Hd Hl]. split_and!; [|done|by apply Nat.eqb_eq].
  unfold PyStr.isdigit in Hd. apply andb_prop in Hd as [Hd _].
  by apply negb_true_iff in Hd.
Qed.

(** Symbolic execution of [validate_steam_id] up to the answer of the
    network. *)
Ltac enter_lookup Hfmt Hnet :=
  apply format_valid_checks in Hfmt as (? & ? & ?);
  unfold validate_steam_id;
  repeat match goal with H : _ = _ :> bool |- _ => rewrite H; clear H end;
  simpl;
  unfold try_except, bind_exn, lift, bind, requests_get;
  rewrite rate_limit_check_eq; simpl;
  unfold summaries_request in Hnet; rewrite Hnet; simpl.

Lemma validate_raises s w elapsed e :
  format_valid s -> lookup_of s w = (elapsed, inl e) ->
  fst (validate s w) =
    match e with
    | Timeout _ => returned_by (NetworkError TimedOut)
    | RequestException detail => returned_by (NetworkError (TransportFailure detail))
    | Exception msg => (false, "Validation error: " +:+ msg)
    end.
Proof. intros Hfmt Hnet. enter_lookup Hfmt Hnet. by destruct e. Qed.

Lemma validate_403 s w elapsed r :
  format_valid s -> lookup_of s w = (elapsed, inr r) ->
  status_code r = 403 ->
  fst (validate s w) = returned_by AuthError.
Proof. intros Hfmt Hnet Hs. enter_lookup Hfmt Hnet. by rewrite Hs. Qed.

Lemma validate_429 s w elapsed r :
  format_valid s -> lookup_of s w = (elapsed, inr r) ->
  status_code r = 429 ->
  fst (validate s w) = returned_by RateLimited.
Proof. intros Hfmt Hnet Hs. enter_lookup Hfmt Hnet. by rewrite Hs. Qed.

Lemma validate_other_status s w elapsed r :
  format_valid s -> lookup_of s w = (elapsed, inr r) ->
  status_code r ≠ 403 -> status_code r ≠ 429 -> status_code r ≠ 200 ->
  fst (validate s w)
  = returned_by (UnexpectedResponse (StatusCode (status_code r))).
Proof.
  intros Hfmt Hnet H1 H2 H3. enter_lookup Hfmt Hnet.
  apply Z.eqb_neq in H1, H2, H3. by rewrite H1, H2, H3.
Qed.

(** What is left of [validate_steam_id] once a 200 response has a parsed
    body. *)
Lemma validate_200 s w elapsed r data :
  format_valid s -> lookup_of s w = (elapsed, inr r) ->
  status_code r = 200 -> json_body r = inr data ->
  fst (validate s w) =
    match has_nested data "response" "players" with
    | inl f => (false, "Validation error: " +:+ fault_str f)
    | inr false => returned_by (UnexpectedResponse MalformedBody)
    | inr true =>
        match get_nested data "response" "players" with
        | inl f => (false, "Validation error: " +:+ fault_str f)
        | inr players =>
            match py_len players with
            | inl f => (false, "Validation error: " +:+ fault_str f)
            | inr n => if (0 <? n)%nat then returned_by Valid
                       else returned_by NotFound
            end
        end
    end.
Proof.
  intros Hfmt Hnet Hs Hj. enter_lookup Hfmt Hnet. rewrite Hs. simpl.
  unfold response_json, ret. rewrite Hj. simpl.
  destruct (has_nested _ _ _) as [f|[]]; simpl; try done.
  destruct (get_nested _ _ _) as [f|players]; simpl; try done.
  destruct (py_len players) as [f|n]; simpl; try done.
  by destruct (0 <? n)%nat.
Qed.

(** A value that can be reached by [data[outer][inner]] passes the
    membership test. *)
Lemma get_nested_has_nested data outer inner v :
  get_nested data outer inner = inr v ->
  has_nested data outer inner = inr true.
Proof.
  unfold get_nested, has_nested.
  destruct data as [| | | | |fields]; simpl; try done.
  destruct (lookup_field outer fields) as [sub|] eqn:Hsub; [|done].
  rewrite bool_decide_eq_true_2 by eauto.
  destruct sub as [| | | | |fields']; simpl; try done.
  destruct (lookup_field inner fields') eqn:Hin; [|done].
  intros _. by rewrite bool_decide_eq_true_2 by eauto.
Qed.

(** The world [validate_steam_id] leaves after a lookup: the limiter has
    run, the request is logged, the call has taken its time. *)
Lemma validate_world s w elapsed outcome :
  format_valid s -> lookup_of s w = (elapsed, outcome) ->
  snd (validate s w) =
    {| clock := (clock (after_admission w) + elapsed)%Q;
       request_times := request_times (after_admission w);
       sent := sent w ++ [summaries_request api_key (PyStr.strip s)];
       slept := slept (after_admission w) |}.
Proof.
  intros Hfmt Hnet. rewrite <- rate_limit_check_sent.
  enter_lookup Hfmt Hnet.
  destruct outcome as [e|r]; simpl; [by destruct e|].
  destruct (status_code r =? 403); [done|].
  destruct (status_code r =? 429); [done|].
  destruct (status_code r =? 200); [|done]. simpl.
  unfold response_json, ret.
  destruct (json_body r) as [e|data]; simpl; [by destruct e|].
  destruct (has_nested _ _ _) as [f|[]]; simpl; try done.
  destruct (get_nested _ _ _) as [f|players]; simpl; try done.
  destruct (py_len players) as [f|n]; simpl; try done.
  by destruct (0 <? n)%nat.
Qed.


Lemma strip_id (s : string) :
  PyStr.all_chars (fun c => negb (PyStr.isspace_char c)) s = true ->
  PyStr.strip s = s.
Proof.
  intros H. unfold PyStr.strip.
  by rewrite StrFacts.lstrip_id, StrFacts.rstrip_id.
Qed.

Lemma digits_format_valid (d : string) :
  PyStr.all_chars PyStr.isdigit_char d = true -> String.length d = 17%nat ->
  PyStr.strip d = d ∧ format_valid d.
Proof.
  intros Hd Hl.
  assert (PyStr.strip d = d) as Hs.
  { apply strip_id. eapply StrFacts.all_chars_impl; [|exact Hd].
    apply StrFacts.digit_not_space. }
  split; [done|]. unfold format_valid, PyStr.isdigit. rewrite Hs, Hd.
  by destruct d.
Qed.

(** C10. The argument is stripped before any check: 17 digits wrapped in
    whitespace pass the format check, are validated exactly as the bare
    digits are, and are sent to the lookup in their stripped form; a string
    of whitespace only is the empty identifier, not a non-numeric one. *)
Theorem C10_strip_comes_first (w1 d w2 ws : string) w :
  PyStr.all_chars PyStr.isspace_char w1 = true ->
  PyStr.all_chars PyStr.isspace_char w2 = true ->
  PyStr.all_chars PyStr.isdigit_char d = true ->
  String.length d = 17%nat ->
  PyStr.all_chars PyStr.isspace_char ws = true ->
  format_valid (w1 +:+ d +:+ w2)
  ∧ validate (w1 +:+ d +:+ w2) w = validate d w
  ∧ sent (snd (validate (w1 +:+ d +:+ w2) w))
    = sent w ++ [summaries_request api_key d]
  ∧ validate ws w = (returned_by (InvalidFormat EmptyId), w).
Proof.
  intros H1 H2 Hd Hl Hws.
  destruct (digits_format_valid d Hd Hl) as [Hs Hfmt].
  assert (PyStr.strip (w1 +:+ d +:+ w2) = d) as Hstrip.
  { apply StrFacts.strip_wrapped; try done.
    eapply StrFacts.all_chars_impl; [|exact Hd]. apply StrFacts.digit_not_space. }
  assert (format_valid (w1 +:+ d +:+ w2)) as Hfmt'.
  { unfold format_valid in *. by rewrite Hstrip, <- Hs. }
  split_and!.
  - done.
  - unfold validate_steam_id. by rewrite Hstrip, Hs.
  - destruct (lookup_of (w1 +:+ d +:+ w2) w) as [elapsed outcome] eqn:Hnet.
    rewrite (validate_world _ _ _ _ Hfmt' Hnet). simpl. by rewrite Hstrip.
  - unfold validate_steam_id. by rewrite (StrFacts.strip_spaces ws Hws).
Qed.

(** C5, as the code has it.  For a format-valid identifier the answer of the
    lookup is mapped as follows: 403 is AuthError, 429 is RateLimited, any
    other status but 200 is UnexpectedResponse with the status code, a
    timeout is NetworkError (timeout), any other failure of the transport is
    NetworkError with its detail; on 200 with a parsed body, a body on which
    the test ['response' in data and 'players' in data['response']] is false
    is UnexpectedResponse, an empty players array is NotFound and a players
    array with an element is Valid.  A body on which that test itself
    faults is reported by the last handler as a validation error. *)
Theorem C5_lookup_outcomes s w elapsed outcome :
  format_valid s -> lookup_of s w = (elapsed, outcome) ->
  (∀ r, outcome = inr r -> status_code r = 403 ->
     fst (validate s w) = returned_by AuthError)
  ∧ (∀ r, outcome = inr r -> status_code r = 429 ->
     fst (validate s w) = returned_by RateLimited)
  ∧ (∀ r, outcome = inr r ->
     status_code r ≠ 403 -> status_code r ≠ 429 -> status_code r ≠ 200 ->
     fst (validate s w)
     = returned_by (UnexpectedResponse (StatusCode (status_code r))))
  ∧ (∀ msg, outcome = inl (Timeout msg) ->
     fst (validate s w) = returned_by (NetworkError TimedOut))
  ∧ (∀ detail, outcome = inl (RequestException detail) ->
     fst (validate s w) = returned_by (NetworkError (TransportFailure detail)))
  ∧ (∀ r data, outcome = inr r -> status_code r = 200 -> json_body r = inr data ->
     (has_nested data "response" "players" = inr false ->
        fst (validate s w) = returned_by (UnexpectedResponse MalformedBody))
     ∧ (get_nested data "response" "players" = inr (JArr []) ->
        fst (validate s w) = returned_by NotFound)
     ∧ (∀ p ps, get_nested data "response" "players" = inr (JArr (p :: ps)) ->
        fst (validate s w) = returned_by Valid)
     ∧ (∀ f, has_nested data "response" "players" = inl f ->
        fst (validate s w) = (false, "Validation error: " +:+ fault_str f))).
Proof.
  intros Hfmt Hnet. split_and!.
  - intros r -> Hs. eapply validate_403; eassumption.
  - intros r -> Hs. eapply validate_429; eassumption.
  - intros r -> H1 H2 H3. eapply validate_other_status; eassumption.
  - intros msg ->. by rewrite (validate_raises _ _ _ _ Hfmt Hnet).
  - intros detail ->. by rewrite (validate_raises _ _ _ _ Hfmt Hnet).
  - intros r data -> Hs Hj.
    pose proof (validate_200 _ _ _ _ _ Hfmt Hnet Hs Hj) as H200.
    split_and!.
    + intros Hn. by rewrite Hn in H200.
    + intros Hg. by rewrite (get_nested_has_nested _ _ _ _ Hg), Hg in H200.
    + intros p ps Hg.
      by rewrite (get_nested_has_nested _ _ _ _ Hg), Hg in H200.
    + intros f Hn. by rewrite Hn in H200.
Qed.

Local Abbreviation fetch := (get_friend_list api_key network fault_str).

Lemma get_friend_list_status id w elapsed r :
  network (after_admission w) (friends_request api_key id) = (elapsed, inr r) ->
  status_code r ≠ 200 ->
  fst (fetch id w) =
    if status_code r =? 401 then Fetch.returned_by Fetch.AuthError
    else if status_code r =? 403 then Fetch.returned_by Fetch.PrivateOrNotFound
    else if status_code r =? 429 then Fetch.returned_by Fetch.RateLimited
    else Fetch.returned_by (Fetch.UnexpectedResponse (StatusCode (status_code r))).
Proof.
  intros Hnet Hs. unfold get_friend_list.
  unfold try_except, bind_exn, lift, bind, requests_get.
  rewrite rate_limit_check_eq. simpl.
  unfold friends_request in Hnet. rewrite Hnet. simpl.
  apply Z.eqb_neq in Hs. rewrite Hs.
  destruct (status_code r =? 401); [done|].
  destruct (status_code r =? 403); [done|].
  by destruct (status_code r =? 429).
Qed.

(** C6. The two endpoints read the status code differently, whatever else
    the response holds: [get_friend_list] takes 401 for AuthError and 403 for
    PrivateOrNotFound, while [validate_steam_id] takes 403 for AuthError (and
    has no case for 401, which is reported as an unexpected status). *)
Theorem C6_status_codes_differ_per_endpoint elapsed r :
  (∀ id w,
     network (after_admission w) (friends_request api_key id) = (elapsed, inr r) ->
     (status_code r = 401 -> fst (fetch id w) = Fetch.returned_by Fetch.AuthError)
     ∧ (status_code r = 403 ->
        fst (fetch id w) = Fetch.returned_by Fetch.PrivateOrNotFound))
  ∧ (∀ s w,
     format_valid s -> lookup_of s w = (elapsed, inr r) ->
     (status_code r = 403 -> fst (validate s w) = returned_by AuthError)
     ∧ (status_code r = 401 ->
        fst (validate s w) = returned_by (UnexpectedResponse (StatusCode 401)))).
Proof.
  split.
  - intros id w Hnet. split; intros Hs;
      rewrite (get_friend_list_status _ _ _ _ Hnet) by lia; by rewrite Hs.
  - intros s w Hfmt Hnet. split; intros Hs.
    + eapply validate_403; eassumption.
    + rewrite <- Hs. eapply validate_other_status; try eassumption; lia.
Qed.

End Validation.



(** C10 at work. *)
Lemma C10_witness :
  sent (snd (validate_steam_id "KEY" Demo.steam Demo.describe
               ("  " +:+ Demo.ann +:+ String "010" "") Demo.world0))
  = [summaries_request "KEY" Demo.ann]
  ∧ validate_steam_id "KEY" Demo.steam Demo.describe "   " Demo.world0
    = (returned_by (InvalidFormat EmptyId), Demo.world0).
Proof.
  destruct (C10_strip_comes_first "KEY" Demo.steam Demo.describe
              "  " Demo.ann (String "010" "") "   " Demo.world0)
    as (_ & _ & Hsent & Hws); try reflexivity.
  split; [exact Hsent|exact Hws].
Defined.

Lemma ann_format_valid : format_valid Demo.ann.
Proof. split; reflexivity. Qed.

(** C5 at work: one answer of the network for each line of the table. *)
Lemma C5_witness :
  let run net := fst (validate_steam_id "KEY" net Demo.describe Demo.ann Demo.world0) in
  run (Demo.always 403 JNull) = returned_by AuthError
  ∧ run (Demo.always 429 JNull) = returned_by RateLimited
  ∧ run (Demo.always 500 JNull) = returned_by (UnexpectedResponse (StatusCode 500))
  ∧ run (Demo.failing (Timeout "timed out")) = returned_by (NetworkError TimedOut)
  ∧ run (Demo.failing (RequestException "connection refused"))
    = returned_by (NetworkError (TransportFailure "connection refused"))
  ∧ run (Demo.always 200 (JObj [("response", JObj [])]))
    = returned_by (UnexpectedResponse MalformedBody)
  ∧ run (Demo.always 200 (Demo.players [])) = returned_by NotFound
  ∧ run (Demo.always 200 (Demo.players [JObj [("steamid", JStr Demo.ann)]]))
    = returned_by Valid.
Proof.
  intros run. unfold run.
  pose proof (fun net outcome =>
    C5_lookup_outcomes "KEY" net Demo.describe Demo.ann Demo.world0 0%Q outcome
      ann_format_valid) as H.
  split_and!.
  - destruct (H (Demo.always 403 JNull) _ eq_refl) as (H1 & _).
    by apply (H1 _ eq_refl).
  - destruct (H (Demo.always 429 JNull) _ eq_refl) as (_ & H2 & _).
    by apply (H2 _ eq_refl).
  - destruct (H (Demo.always 500 JNull) _ eq_refl) as (_ & _ & H3 & _).
    by apply (H3 _ eq_refl).
  - destruct (H (Demo.failing (Timeout "timed out")) _ eq_refl)
      as (_ & _ & _ & H4 & _).
    by apply (H4 _ eq_refl).
  - destruct (H (Demo.failing (RequestException "connection refused")) _ eq_refl)
      as (_ & _ & _ & _ & H5 & _).
    by apply (H5 _ eq_refl).
  - destruct (H (Demo.always 200 (JObj [("response", JObj [])])) _ eq_refl)
      as (_ & _ & _ & _ & _ & H6).
    destruct (H6 _ _ eq_refl eq_refl eq_refl) as (Hm & _). by apply Hm.
  - destruct (H (Demo.always 200 (Demo.players [])) _ eq_refl)
      as (_ & _ & _ & _ & _ & H6).
    destruct (H6 _ _ eq_refl eq_refl eq_refl) as (_ & Hn & _). by apply Hn.
  - destruct (H (Demo.always 200 (Demo.players [JObj [("steamid", JStr Demo.ann)]]))
                _ eq_refl) as (_ & _ & _ & _ & _ & H6).
    destruct (H6 _ _ eq_refl eq_refl eq_refl) as (_ & _ & Hv & _).
    by eapply Hv.
Defined.

(** The claim of C5 as the specification words it fails on a 200 body that
    lacks the players structure in a way the membership test cannot examine:
    on [{"response": null}] there is no [data['response']['players']], yet
    the result is the validation error of the last handler, not the
    UnexpectedResponse outcome. *)
Lemma C5_counterexample :
  let body := JObj [("response", JNull)] in
  let result := fst (validate_steam_id "KEY" (Demo.always 200 body) Demo.describe
                       Demo.ann Demo.world0) in
  format_valid Demo.ann
  ∧ get_nested body "response" "players" = inl (NotSubscriptable JNull)
  ∧ result = (false, "Validation error: " +:+ Demo.describe (NotIterable JNull))
  ∧ result ≠ returned_by (UnexpectedResponse MalformedBody)
  ∧ (∀ code, result ≠ returned_by (UnexpectedResponse (StatusCode code))).
Proof.
  split_and!; [apply ann_format_valid|reflexivity|reflexivity|discriminate|].
  intros code. vm_compute. discriminate.
Qed.

(** C6 at work: the same 403 read by the two endpoints, and a 401 read by
    [get_friend_list]. *)
Lemma C6_witness :
  fst (get_friend_list "KEY" (Demo.always 401 JNull) Demo.describe Demo.ann Demo.world0)
  = Fetch.returned_by Fetch.AuthError
  ∧ fst (get_friend_list "KEY" (Demo.always 403 JNull) Demo.describe Demo.ann Demo.world0)
    = Fetch.returned_by Fetch.PrivateOrNotFound
  ∧ fst (validate_steam_id "KEY" (Demo.always 403 JNull) Demo.describe Demo.ann Demo.world0)
    = returned_by AuthError.
Proof.
  split_and!.
  - destruct (C6_status_codes_differ_per_endpoint "KEY" (Demo.always 401 JNull)
                Demo.describe 0%Q {| status_code := 401; json_body := inr JNull |})
      as (Hf & _).
    destruct (Hf Demo.ann Demo.world0 eq_refl) as (H401 & _). by apply H401.
  - destruct (C6_status_codes_differ_per_endpoint "KEY" (Demo.always 403 JNull)
                Demo.describe 0%Q {| status_code := 403; json_body := inr JNull |})
      as (Hf & _).
    destruct (Hf Demo.ann Demo.world0 eq_refl) as (_ & H403). by apply H403.
  - destruct (C6_status_codes_differ_per_endpoint "KEY" (Demo.always 403 JNull)
                Demo.describe 0%Q {| status_code := 403; json_body := inr JNull |})
      as (_ & Hv).
    destruct (Hv Demo.ann Demo.world0 ann_format_valid eq_refl) as (H403 & _).
    by apply H403.
Defined.

(** ** Batch processing *)

Lemma counter_incr k k' d :
  counter k (dict_incr k' d)
  = if decide (k = k') then (fun n => n + 1) <$> counter k d else counter k d.
Proof.
  unfold counter, dict_incr.
  destruct (d !! k') as [[n|s]|] eqn:E; case_decide; subst;
    rewrite ?lookup_insert_eq, ?lookup_insert_ne, ?E by done; done.
Qed.

Lemma tallies_incr key d t s f i k :
  tallies d = Some (t, s, f, i, k) ->
  tallies (dict_incr key d) =
    Some (if decide (key = "total") then t + 1 else t,
          if decide (key = "success") then s + 1 else s,
          if decide (key = "failed") then f + 1 else f,
          if decide (key = "invalid") then i + 1 else i,
          if decide (key = "skipped") then k + 1 else k).
Proof.
  unfold tallies. rewrite !counter_incr.
  destruct (counter "total" d), (counter "success" d), (counter "failed" d),
    (counter "invalid" d), (counter "skipped" d); try done.
  intros [= -> -> -> -> ->].
  repeat case_decide; simplify_eq; simpl; try done.
Qed.


Section Batch.

Variables (api_key self_id : string).
Variable network : World -> Request -> Q * (pyexn + Response).
Variable path_exists : string -> bool.
Variable readlines : string -> pyexn + list string.
Variable fault_str : fault -> string.

Local Abbreviation validate := (validate_steam_id api_key network fault_str).
Local Abbreviation attempt_ := (attempt api_key network fault_str).
Local Abbreviation process_line_ := (process_line api_key network fault_str).
Local Abbreviation add_one_ := (add_one api_key network fault_str).

Lemma validation_failed_marked msg :
  PyStr.contains "Validation failed" ("Validation failed: " +:+ msg) = true.
Proof. apply StrFacts.contains_prefix. reflexivity. Qed.

(** Every validation failure reaches the loop with the words 'Validation
    failed' in front, so the loop files it under [invalid]. *)
Lemma attempt_result id results w :
  fst (attempt_ id results w)
  = if fst (fst (validate id w)) then dict_incr "success" results
    else dict_incr "invalid" results.
Proof.
  unfold attempt, send_friend_request, bind.
  destruct (validate id w) as [[valid msg] w1]. simpl.
  by destruct valid.
Qed.

Lemma process_line_skipped line results w :
  skipped_line line = true ->
  process_line_ line results w = (dict_incr "skipped" results, w).
Proof. unfold process_line, skipped_line. by intros ->. Qed.

Lemma process_line_counted line results w :
  skipped_line line = false ->
  process_line_ line results w
  = attempt_ (PyStr.strip line) (dict_incr "total" results) w.
Proof. unfold process_line, skipped_line. by intros ->. Qed.

Lemma returned_by_valid o : fst (returned_by o) = true <-> o = Valid.
Proof.
  destruct o as [|[]| | | |[]|[]]; simpl; split; congruence.
Qed.



Lemma process_line_tallies line d w t s f i k :
  tallies d = Some (t, s, f, i, k) ->
  tallies (fst (process_line_ line d w)) =
    Some (if skipped_line line then (t, s, f, i, k + 1)
          else if fst (fst (validate (PyStr.strip line) w))
               then (t + 1, s + 1, f, i, k)
               else (t + 1, s, f, i + 1, k)).
Proof.
  intros Hd. destruct (skipped_line line) eqn:Hskip.
  - rewrite process_line_skipped by done. simpl.
    by rewrite (tallies_incr _ _ _ _ _ _ _ Hd).
  - rewrite process_line_counted, attempt_result by done.
    pose proof (tallies_incr "total" _ _ _ _ _ _ Hd) as Ht. simpl in Ht.
    destruct (fst (fst (validate (PyStr.strip line) w)));
      by rewrite (tallies_incr _ _ _ _ _ _ _ Ht).
Qed.

Lemma add_one_tallies id d w t s f i k :
  tallies d = Some (t, s, f, i, k) ->
  tallies (fst (add_one_ id d w)) =
    Some (if fst (fst (validate id w)) then (t + 1, s + 1, f, i, k)
          else (t + 1, s, f, i + 1, k)).
Proof.
  intros Hd. unfold add_one. rewrite attempt_result.
  pose proof (tallies_incr "total" _ _ _ _ _ _ Hd) as Ht. simpl in Ht.
  destruct (fst (fst (validate id w)));
    by rewrite (tallies_incr _ _ _ _ _ _ _ Ht).
Qed.



Lemma add_item_str id d w :
  add_item api_key network fault_str (JStr id) d w
  = ((fst (add_one_ id d w), None), snd (add_one_ id d w)).
Proof.
  unfold add_item, add_one, bind. by destruct (attempt_ id _ w).
Qed.




(** On candidates that are all str the loop raises nothing and is the plain
    loop over [add_one]. *)
Lemma add_loop_strings ids :
  ∀ d w, add_loop api_key network fault_str (JStr <$> ids) d w
         = ((fst (for_each ids add_one_ d w), None),
            snd (for_each ids add_one_ d w)).
Proof.
  induction ids as [|id ids IH]; intros d w; [done|].
  rewrite fmap_cons. unfold add_loop. cbn [for_each_raising for_each].
  unfold bind. rewrite add_item_str.
  destruct (add_one_ id d w) as [d1 w1]. simpl. apply IH.
Qed.


(** C7, as the code has it.  A path that does not exist ends the run at
    once with a dictionary that holds an error and nothing else, no counter
    among it.  When the file exists and reading it raises, the dictionary
    returned holds the error next to the five counters; they are all zero,
    since the file is read as a whole before the first line is processed.
    Either way a dictionary is returned to the caller. *)
Theorem C7_read_errors path w :
  let run := process_steam_ids_file api_key network path_exists readlines
               fault_str path w in
  (path_exists path = false ->
     run = ({[ "error" := PyStr "File not found" ]}, w))
  ∧ (path_exists path = true -> ∀ e, readlines path = inl e ->
     run = (<["error" := PyStr (exn_str e)]> fresh_results, w)
     ∧ fst run !! "error" = Some (PyStr (exn_str e))
     ∧ tallies (fst run) = Some (0, 0, 0, 0, 0)).
Proof.
  simpl. unfold process_steam_ids_file, bind. split.
  - by intros ->.
  - intros -> e ->. simpl. split_and!; [done|by rewrite lookup_insert_eq|].
    unfold tallies, counter. by rewrite !lookup_insert_ne.
Qed.

End Batch.



(** C7 at work: a path that is missing, and a file that cannot be read. *)
Lemma C7_witness :
  process_steam_ids_file "KEY" Demo.steam Demo.no_file Demo.unreadable
    Demo.describe "steam_ids.txt" Demo.world0
  = ({[ "error" := PyStr "File not found" ]}, Demo.world0)
  ∧ tallies (fst (process_steam_ids_file "KEY" Demo.steam Demo.a_file
                    Demo.unreadable Demo.describe "steam_ids.txt" Demo.world0))
    = Some (0, 0, 0, 0, 0).
Proof.
  split.
  - apply (C7_read_errors "KEY" Demo.steam Demo.no_file Demo.unreadable
             Demo.describe "steam_ids.txt" Demo.world0). reflexivity.
  - eapply (C7_read_errors "KEY" Demo.steam Demo.a_file Demo.unreadable
              Demo.describe "steam_ids.txt" Demo.world0); reflexivity.
Defined.

(** The claim of C7 as the specification words it fails for the read error
    met first: when the file is missing the result carries the error and no
    counter at all. *)
Lemma C7_counterexample :
  let d := fst (process_steam_ids_file "KEY" Demo.steam Demo.no_file
                  Demo.unreadable Demo.describe "steam_ids.txt" Demo.world0) in
  d !! "error" = Some (PyStr "File not found")
  ∧ d !! "total" = None ∧ d !! "success" = None ∧ d !! "failed" = None
  ∧ d !! "invalid" = None ∧ d !! "skipped" = None
  ∧ tallies d = None.
Proof. split_and!; reflexivity. Qed.



(** ** The rate limiter *)

(** Below the ceiling the call returns at once and records its time. *)
Lemma check_under w :
  (length (live w) < max_requests_per_minute)%nat ->
  after_admission w =
    {| clock := clock w; request_times := live w ++ [clock w];
       sent := sent w; slept := slept w |}.
Proof.
  intros Hlen. unfold after_admission, _rate_limit_check. cbn. fold (live w).
  rewrite decide_False by lia. reflexivity.
Qed.

(** At the ceiling the call sleeps until the oldest live timestamp is a
    minute old, empties the window and records the time it read on entry. *)
Lemma check_full w :
  (max_requests_per_minute <= length (live w))%nat ->
  ∃ oldest rest,
    live w = oldest :: rest
    ∧ (0 < 60 - (clock w - oldest))%Q
    ∧ after_admission w =
        {| clock := (clock w + (60 - (clock w - oldest)))%Q;
           request_times := [clock w];
           sent := sent w;
           slept := slept w ++ [(60 - (clock w - oldest))%Q] |}.
Proof.
  intros Hlen. unfold after_admission, _rate_limit_check. cbn. fold (live w).
  rewrite decide_True by done.
  destruct (live w) as [|oldest rest] eqn:Hlive.
  { unfold max_requests_per_minute in Hlen. simpl in Hlen. lia. }
  assert (oldest ∈ live w) as Hin by (rewrite Hlive; left).
  apply list_elem_of_filter in Hin as [Hyoung _].
  assert (0 < 60 - (clock w - oldest))%Q as Hwait by lra.
  exists oldest, rest. split_and!; [done..|].
  by rewrite decide_True.
Qed.

Lemma check_cases w :
  ((length (live w) < max_requests_per_minute)%nat
   ∧ slept (after_admission w) = slept w
   ∧ clock (after_admission w) = clock w
   ∧ request_times (after_admission w) = live w ++ [clock w])
  ∨ ((max_requests_per_minute <= length (live w))%nat
     ∧ length (slept (after_admission w)) = S (length (slept w))
     ∧ (clock w < clock (after_admission w))%Q
     ∧ request_times (after_admission w) = [clock w]).
Proof.
  destruct (decide (length (live w) < max_requests_per_minute)%nat) as [Hlt|Hge].
  - left. rewrite (check_under w Hlt). by split_and!.
  - right. destruct (check_full w) as (oldest & rest & _ & Hwait & ->); [lia|].
    simpl. split_and!; [lia|by rewrite length_app, Nat.add_comm| |done].
    lra.
Qed.

Lemma window_bounded w :
  (length (request_times (after_admission w)) <= max_requests_per_minute)%nat.
Proof.
  destruct (check_cases w) as [(Hlen & _ & _ & ->)|(_ & _ & _ & ->)].
  - rewrite length_app. simpl. lia.
  - unfold max_requests_per_minute. simpl. lia.
Qed.

Lemma run_calls_cons gap gaps w :
  run_calls (gap :: gaps) w =
    ({| issued := clock (idle gap w);
        blocked := negb (length (slept (after_admission (idle gap w)))
                         =? length (slept (idle gap w)))%nat;
        admitted := clock (after_admission (idle gap w)) |}
       :: fst (run_calls gaps (after_admission (idle gap w))),
     snd (run_calls gaps (after_admission (idle gap w)))).
Proof.
  simpl. fold (after_admission (idle gap w)).
  by destruct (run_calls gaps _).
Qed.

Lemma run_calls_window gaps w :
  (length (request_times w) <= max_requests_per_minute)%nat ->
  (length (request_times (snd (run_calls gaps w))) <= max_requests_per_minute)%nat.
Proof.
  revert w. induction gaps as [|gap gaps IH]; intros w Hw; [done|].
  rewrite run_calls_cons. simpl. apply IH, window_bounded.
Qed.

(** Time does not run backwards through a sequence of calls. *)
Lemma run_calls_issued_ge gaps w :
  Forall (fun gap => 0 <= gap)%Q gaps ->
  Forall (fun c => clock w <= issued c)%Q (fst (run_calls gaps w)).
Proof.
  revert w. induction gaps as [|gap gaps IH]; intros w Hgaps; [by constructor|].
  apply Forall_cons in Hgaps as [Hgap Hgaps].
  rewrite run_calls_cons. simpl. constructor; simpl; [lra|].
  eapply Forall_impl; [apply IH, Hgaps|].
  intros c Hc. simpl in Hc.
  assert (clock (idle gap w) <= clock (after_admission (idle gap w)))%Q.
  { destruct (check_cases (idle gap w)) as [(_ & _ & -> & _)|(_ & _ & Hlt & _)];
      simpl in *; lra. }
  simpl in *. lra.
Qed.

(** While no call blocks and every call is issued less than a minute after
    [t1], every call adds one timestamp to those not older than [t1] and none
    of them is pruned. *)
Lemma run_calls_unblocked t1 gaps w :
  Forall (fun c => blocked c = false
                   ∧ (t1 <= issued c)%Q ∧ (issued c - t1 < 60)%Q)
    (fst (run_calls gaps w)) ->
  length (since t1 (snd (run_calls gaps w)))
  = (length (since t1 w) + length gaps)%nat.
Proof.
  revert w. induction gaps as [|gap gaps IH]; intros w Hcs; [simpl; lia|].
  rewrite run_calls_cons in Hcs |- *. simpl in Hcs |- *.
  apply Forall_cons in Hcs as [(Hblocked & Hge & Hlt) Hcs]. simpl in *.
  rewrite (IH _ Hcs).
  destruct (check_cases (idle gap w)) as [(_ & _ & _ & Hrt)|(_ & Hslept & _)].
  - unfold since at 1. rewrite Hrt, filter_app, length_app.
    rewrite filter_cons, decide_True by (simpl; lra). simpl.
    unfold live. rewrite list_filter_filter. simpl.
    rewrite (list_filter_iff _ (fun t => t1 <= t)%Q); [unfold since; lia|].
    intros t. split; [tauto|]. intros Ht. split; [done|]. lra.
  - simpl in Hslept. apply negb_false_iff, Nat.eqb_eq in Hblocked. lia.
Qed.

(** Of more than 30 calls whose issue times lie less than a minute apart,
    at least one blocks. *)
Lemma calls_within_a_minute gaps w :
  Forall (fun gap => 0 <= gap)%Q gaps ->
  (max_requests_per_minute < length gaps)%nat ->
  (∀ c c', c ∈ fst (run_calls gaps w) -> c' ∈ fst (run_calls gaps w) ->
           (issued c' - issued c < 60)%Q) ->
  Exists (fun c => blocked c = true) (fst (run_calls gaps w)).
Proof.
  intros Hgaps Hlen Hspan.
  destruct gaps as [|gap gaps]; [simpl in Hlen; lia|].
  destruct (decide (Exists (fun c => blocked c = true)
                      (fst (run_calls (gap :: gaps) w)))) as [|Hnone]; [done|].
  exfalso. apply not_Exists_Forall in Hnone; [|apply _].
  set (t1 := clock (idle gap w)).
  assert (Forall (fun c => blocked c = false
                           ∧ (t1 <= issued c)%Q ∧ (issued c - t1 < 60)%Q)
            (fst (run_calls (gap :: gaps) w))) as Hall.
  { apply Forall_forall. intros c Hc. split_and!.
    - apply (proj1 (Forall_forall _ _) Hnone) in Hc. simpl in Hc.
      by destruct (blocked c).
    - rewrite run_calls_cons in Hc. cbn [fst] in Hc. clear Hspan Hnone.
      apply elem_of_cons in Hc as [->|Hc]; [unfold t1; simpl; lra|].
      apply Forall_cons in Hgaps as [_ Hgaps].
      pose proof (run_calls_issued_ge gaps (after_admission (idle gap w)) Hgaps)
        as Hge'.
      apply (proj1 (Forall_forall _ _) Hge') in Hc.
      destruct (check_cases (idle gap w)) as [(_ & _ & Hck & _)|(_ & _ & Hck & _)];
        unfold t1; cbn in Hc, Hck |- *; try rewrite Hck in Hc; lra.
    - rewrite run_calls_cons in Hspan, Hc. cbn [fst] in Hspan, Hc.
      exact (Hspan _ c (list_elem_of_here _ _) Hc). }
  pose proof (run_calls_unblocked t1 _ _ Hall) as Hcount.
  pose proof (length_filter (fun t => t1 <= t)%Q
                (request_times (snd (run_calls (gap :: gaps) w)))) as Hle.
  fold (since t1 (snd (run_calls (gap :: gaps) w))) in Hle.
  assert (length (request_times (snd (run_calls (gap :: gaps) w)))
          <= max_requests_per_minute)%nat as Hwin.
  { rewrite run_calls_cons. simpl. apply run_calls_window, window_bounded. }
  lia.
Qed.

(** A run of two schedules, one after the other, is the run of the first
    followed by the run of the second from where the first ended. *)
Lemma run_calls_app gaps1 gaps2 w :
  run_calls (gaps1 ++ gaps2) w
  = (fst (run_calls gaps1 w) ++ fst (run_calls gaps2 (snd (run_calls gaps1 w))),
     snd (run_calls gaps2 (snd (run_calls gaps1 w)))).
Proof.
  revert w. induction gaps1 as [|gap gaps1 IH]; intros w.
  - simpl. by destruct (run_calls gaps2 w).
  - rewrite <- app_comm_cons, !run_calls_cons, IH. reflexivity.
Qed.

Lemma run_calls_length gaps w : length (fst (run_calls gaps w)) = length gaps.
Proof.
  revert w. induction gaps as [|gap gaps IH]; intros w; [done|].
  rewrite run_calls_cons. simpl. by rewrite IH.
Qed.

(** The records of a stretch of a run are those of the run of its gaps from
    the state the calls before it left. *)
Lemma stretch_run before seg after w :
  stretch (length before) (length seg)
    (fst (run_calls (before ++ seg ++ after) w))
  = fst (run_calls seg (snd (run_calls before w))).
Proof.
  unfold stretch. rewrite run_calls_app. cbn [fst].
  rewrite drop_app_length' by (symmetry; apply run_calls_length).
  rewrite run_calls_app. cbn [fst].
  by rewrite take_app_length' by (symmetry; apply run_calls_length).
Qed.

(** A call that does not block returns at the instant it was issued; one
    that blocks returns later. *)
Lemma run_calls_admitted gaps w :
  Forall (fun c => if blocked c then (issued c < admitted c)%Q
                   else admitted c = issued c)
    (fst (run_calls gaps w)).
Proof.
  revert w. induction gaps as [|gap gaps IH]; intros w; [by constructor|].
  rewrite run_calls_cons. cbn [fst]. constructor; [|apply IH].
  cbn [blocked issued admitted].
  destruct (check_cases (idle gap w))
    as [(_ & Hslept & Hclock & _)|(_ & Hslept & Hclock & _)].
  - by rewrite Hslept, Nat.eqb_refl.
  - rewrite Hslept. replace (S _ =? _)%nat with false; [done|].
    symmetry. apply Nat.eqb_neq. lia.
Qed.

Lemma sum_nonneg (gaps : list Q) :
  Forall (fun gap => 0 <= gap)%Q gaps -> (0 <= foldr Qplus 0 gaps)%Q.
Proof.
  induction 1 as [|gap gaps Hgap _ IH]; cbn [foldr]; [apply Qle_refl|lra].
Qed.

(** As long as no call blocks, the calls are issued as scheduled. *)
Lemma run_calls_on_schedule gaps w :
  Forall (fun gap => 0 <= gap)%Q gaps ->
  Forall (fun c => blocked c = false) (fst (run_calls gaps w)) ->
  Forall (fun c => issued c <= clock w + foldr Qplus 0 gaps)%Q
    (fst (run_calls gaps w)).
Proof.
  revert w. induction gaps as [|gap gaps IH]; intros w Hgaps Hfree;
    [by constructor|].
  apply Forall_cons in Hgaps as [Hgap Hgaps].
  pose proof (sum_nonneg gaps Hgaps) as Hsum.
  rewrite run_calls_cons in Hfree |- *. cbn [fst] in Hfree |- *.
  apply Forall_cons in Hfree as [Hfirst Hfree]. cbn [blocked] in Hfirst.
  constructor; cbn [issued foldr idle clock]; [lra|].
  eapply Forall_impl; [apply (IH _ Hgaps Hfree)|].
  intros c Hc. cbn beta in Hc.
  destruct (check_cases (idle gap w))
    as [(_ & _ & Hclock & _)|(_ & Hslept & _)].
  - rewrite Hclock in Hc. cbn in Hc. lra.
  - rewrite Hslept in Hfirst. apply negb_false_iff, Nat.eqb_eq in Hfirst. lia.
Qed.

(** The issue times of a run lie between that of its first call and that of
    its last. *)
Lemma run_calls_between gaps w first final :
  Forall (fun gap => 0 <= gap)%Q gaps ->
  head (fst (run_calls gaps w)) = Some first ->
  last (fst (run_calls gaps w)) = Some final ->
  Forall (fun c => issued first <= issued c ∧ issued c <= issued final)%Q
    (fst (run_calls gaps w)).
Proof.
  revert w first. induction gaps as [|gap gaps IH]; intros w first Hgaps Hhead Hlast;
    [by constructor|].
  apply Forall_cons in Hgaps as [Hgap Hgaps].
  rewrite run_calls_cons in Hhead, Hlast |- *. cbn [fst head] in Hhead, Hlast |- *.
  injection Hhead as <-.
  set (w2 := after_admission (idle gap w)) in *.
  pose proof (run_calls_issued_ge gaps w2 Hgaps) as Hge.
  assert (clock (idle gap w) <= clock w2)%Q as Hmono.
  { unfold w2. destruct (check_cases (idle gap w))
      as [(_ & _ & -> & _)|(_ & _ & Hlt & _)]; [apply Qle_refl|lra]. }
  destruct (fst (run_calls gaps w2)) as [|c1 rest] eqn:Hrest.
  - cbn in Hlast. injection Hlast as <-. constructor; [|constructor].
    cbn [issued]. split; apply Qle_refl.
  - rewrite last_cons_cons in Hlast.
    assert (final ∈ c1 :: rest) as Hin by (by apply last_Some_elem_of).
    pose proof (proj1 (Forall_forall _ _) Hge final Hin) as Hfinal.
    cbn beta in Hfinal.
    cbn [idle clock] in Hmono.
    constructor; [cbn [issued idle clock]; split; [apply Qle_refl|lra]|].
    specialize (IH w2 c1 Hgaps). rewrite Hrest in IH.
    specialize (IH eq_refl Hlast).
    pose proof (proj1 (Forall_forall _ _) Hge c1 (list_elem_of_here _ _)) as Hc1.
    cbn beta in Hc1.
    eapply Forall_impl; [exact IH|]. intros c [Hlo Hhi].
    cbn [issued idle clock]. split; [lra|done].
Qed.

(** C3, as the code has it.  Take any stretch of 31 or more consecutive
    calls in a run, whatever came before it and whatever comes after.  If
    the caller schedules the stretch within less than 60 seconds, at least
    one call of the stretch blocks.  If every call of the stretch passes
    without a wait, at least 60 seconds of real time lie between the first
    admission and the last.  A call that blocks returns at the very instant
    the oldest live timestamp turns 60 seconds old, a call that does not
    block returns at once; and after every call the limiter's own window
    holds at most 30 timestamps.  (Thirty calls pass without a wait, and the
    calls let through in a stretch of real time that holds a block are not
    bounded by 30.) *)
Theorem C3_thirty_one_calls_block :
  (∀ before seg after w,
     Forall (fun gap => 0 <= gap)%Q seg ->
     (max_requests_per_minute < length seg)%nat ->
     (span seg < 60)%Q ->
     Exists (fun c => blocked c = true)
       (stretch (length before) (length seg)
          (fst (run_calls (before ++ seg ++ after) w))))
  ∧ (∀ before seg after w first final,
     Forall (fun gap => 0 <= gap)%Q seg ->
     (max_requests_per_minute < length seg)%nat ->
     let mine := stretch (length before) (length seg)
                   (fst (run_calls (before ++ seg ++ after) w)) in
     Forall (fun c => blocked c = false) mine ->
     head mine = Some first -> last mine = Some final ->
     (60 <= admitted final - admitted first)%Q)
  ∧ (∀ gaps w c,
     c ∈ fst (run_calls gaps w) ->
     if blocked c then (issued c < admitted c)%Q else admitted c = issued c)
  ∧ (∀ w,
     (max_requests_per_minute <= length (live w))%nat ->
     ∃ oldest,
       head (live w) = Some oldest
       ∧ (clock (after_admission w) == oldest + 60)%Q
       ∧ (clock w < clock (after_admission w))%Q)
  ∧ (∀ w,
     (length (live w) < max_requests_per_minute)%nat ->
     clock (after_admission w) = clock w
     ∧ slept (after_admission w) = slept w)
  ∧ (∀ gaps w n,
     (0 < n <= length gaps)%nat ->
     (length (request_times (snd (run_calls (take n gaps) w)))
      <= max_requests_per_minute)%nat).
Proof.
  assert (∀ seg w,
            Forall (fun gap => 0 <= gap)%Q seg ->
            (max_requests_per_minute < length seg)%nat ->
            Forall (fun c => blocked c = false) (fst (run_calls seg w)) ->
            ∀ first final,
              head (fst (run_calls seg w)) = Some first ->
              last (fst (run_calls seg w)) = Some final ->
              (60 <= issued final - issued first)%Q) as Hfree.
  { intros seg w Hseg Hlen Hnone first final Hhead Hlast.
    destruct (Qlt_le_dec (issued final - issued first) 60) as [Hlt|]; [|done].
    exfalso.
    pose proof (run_calls_between seg w first final Hseg Hhead Hlast) as Hbetween.
    assert (Exists (fun c => blocked c = true) (fst (run_calls seg w))) as Hsome.
    { apply calls_within_a_minute; [done..|]. intros c c' Hc Hc'.
      apply (proj1 (Forall_forall _ _) Hbetween) in Hc, Hc'. lra. }
    apply Exists_exists in Hsome as (c & Hc & Hb).
    apply (proj1 (Forall_forall _ _) Hnone) in Hc. congruence. }
  split_and!.
  - intros before seg after w Hseg Hlen Hspan. rewrite stretch_run.
    set (w1 := snd (run_calls before w)).
    destruct (decide (Exists (fun c => blocked c = true)
                        (fst (run_calls seg w1)))) as [|Hnone]; [done|].
    exfalso. apply not_Exists_Forall in Hnone; [|apply _].
    assert (Forall (fun c => blocked c = false) (fst (run_calls seg w1)))
      as Hnone'.
    { eapply Forall_impl; [exact Hnone|]. intros c Hc. simpl in Hc.
      by destruct (blocked c). }
    destruct seg as [|gap gaps]; [simpl in Hlen; lia|].
    pose proof Hseg as Hseg'. apply Forall_cons in Hseg' as [Hgap Hgaps].
    pose proof Hnone' as Hrun. rewrite run_calls_cons in Hrun. cbn [fst] in Hrun.
    apply Forall_cons in Hrun as [Hfirst Hrest]. cbn [blocked] in Hfirst.
    assert (clock (after_admission (idle gap w1)) = clock (idle gap w1)) as Hclock.
    { destruct (check_cases (idle gap w1))
        as [(_ & _ & Hclock & _)|(_ & Hslept & _)]; [done|].
      rewrite Hslept in Hfirst. apply negb_false_iff, Nat.eqb_eq in Hfirst. lia. }
    pose proof (run_calls_on_schedule gaps _ Hgaps Hrest) as Hsched.
    destruct (last (fst (run_calls (gap :: gaps) w1))) as [final|] eqn:Hlast.
    2:{ apply last_None in Hlast. rewrite run_calls_cons in Hlast. done. }
    pose proof (Hfree (gap :: gaps) w1 Hseg Hlen Hnone' _ final
                  ltac:(rewrite run_calls_cons; reflexivity) Hlast) as Hwide.
    cbn [issued] in Hwide.
    assert (issued final <= clock (idle gap w1) + span (gap :: gaps))%Q; [|lra].
    unfold span. cbn [tail].
    rewrite run_calls_cons in Hlast. cbn [fst] in Hlast.
    destruct (fst (run_calls gaps (after_admission (idle gap w1))))
      as [|c1 rest] eqn:Hcs.
    + pose proof (run_calls_length gaps (after_admission (idle gap w1))) as Hl.
      rewrite Hcs in Hl. simpl in Hl, Hlen.
      unfold max_requests_per_minute in Hlen. lia.
    + rewrite last_cons_cons in Hlast. apply last_Some_elem_of in Hlast.
      apply (proj1 (Forall_forall _ _) Hsched) in Hlast. cbn beta in Hlast.
      rewrite Hclock in Hlast. exact Hlast.
  - intros before seg after w first final Hseg Hlen mine Hnone Hhead Hlast.
    unfold mine in *. rewrite stretch_run in *.
    set (w1 := snd (run_calls before w)) in *.
    pose proof (Hfree seg w1 Hseg Hlen Hnone first final Hhead Hlast) as Hwide.
    pose proof (run_calls_admitted seg w1) as Hadm.
    assert (first ∈ fst (run_calls seg w1)) as Hin1.
    { destruct (fst (run_calls seg w1)); [done|]. injection Hhead as ->. left. }
    assert (final ∈ fst (run_calls seg w1)) as Hin2
      by (by apply last_Some_elem_of).
    pose proof (proj1 (Forall_forall _ _) Hadm first Hin1) as H1.
    pose proof (proj1 (Forall_forall _ _) Hadm final Hin2) as H2.
    cbn beta in H1, H2.
    rewrite (proj1 (Forall_forall _ _) Hnone first Hin1) in H1.
    rewrite (proj1 (Forall_forall _ _) Hnone final Hin2) in H2.
    by rewrite H1, H2.
  - intros gaps w c Hc.
    exact (proj1 (Forall_forall _ _) (run_calls_admitted gaps w) c Hc).
  - intros w Hfull.
    destruct (check_full w Hfull) as (oldest & rest & Hlive & Hwait & ->).
    exists oldest. rewrite Hlive. cbn [clock head]. split_and!; [done|ring|lra].
  - intros w Hunder. by rewrite (check_under w Hunder).
  - intros gaps w n [Hn Hlen].
    destruct gaps as [|gap gaps]; [simpl in Hlen; lia|].
    destruct n as [|n]; [lia|]. rewrite firstn_cons, run_calls_cons.
    cbn [snd]. apply run_calls_window, window_bounded.
Qed.

(** C3 at work: 32 calls issued at the same instant, and 40 calls one
    second apart that follow two earlier calls; then 31 calls two seconds
    apart, which all pass. *)
Lemma C3_witness :
  Exists (fun c => blocked c = true)
    (stretch 0 32 (fst (run_calls (replicate 32 0%Q) Demo.world0)))
  ∧ Exists (fun c => blocked c = true)
      (stretch 2 40 (fst (run_calls ([5; 5] ++ replicate 40 1 ++ [5])%Q
                            Demo.world0)))
  ∧ (∀ first final,
       head (stretch 0 31 (fst (run_calls (replicate 31 2%Q) Demo.world0)))
         = Some first ->
       last (stretch 0 31 (fst (run_calls (replicate 31 2%Q) Demo.world0)))
         = Some final ->
       (60 <= admitted final - admitted first)%Q)
  ∧ (length (request_times
               (snd (run_calls (take 31 (replicate 32 0%Q)) Demo.world0)))
     <= max_requests_per_minute)%nat.
Proof.
  destruct C3_thirty_one_calls_block as (Hblock & Hfree & _ & _ & _ & Hwindow).
  split_and!.
  - apply (Hblock [] (replicate 32 0%Q) [] Demo.world0).
    + apply Forall_replicate. apply Qle_refl.
    + vm_compute. lia.
    + vm_compute. reflexivity.
  - apply (Hblock [5; 5]%Q (replicate 40 1%Q) [5%Q] Demo.world0).
    + apply Forall_replicate. discriminate.
    + vm_compute. lia.
    + vm_compute. reflexivity.
  - intros first final.
    apply (Hfree [] (replicate 31 2%Q) [] Demo.world0 first final).
    + apply Forall_replicate. discriminate.
    + vm_compute. lia.
    + vm_compute. repeat constructor.
  - apply (Hwindow (replicate 32 0%Q) Demo.world0 31%nat). vm_compute. lia.
Defined.

(** The claim of C3 as the specification words it fails three times.
    Thirty calls issued at the same instant all pass without a wait.  Of 31
    calls issued at the same instant the last one waits a minute, so that
    the 61 seconds that follow the first call see all 31 admitted.  And when
    one call at 0 is followed by 30 calls at 1 and, after the block that
    ends at 60, by 29 more, the 60 seconds from 1 on see 59 calls admitted:
    the timestamp a blocked call records is the time it was issued. *)
Lemma C3_counterexample :
  let thirty := fst (run_calls (replicate 30 0%Q) Demo.world0) in
  let thirty_one := fst (run_calls (replicate 31 0%Q) Demo.world0) in
  let sixty := fst (run_calls ([0; 1] ++ replicate 58 0)%Q Demo.world0) in
  length thirty = 30%nat
  ∧ map issued thirty = replicate 30 0%Q
  ∧ map blocked thirty = replicate 30 false
  ∧ map issued thirty_one = replicate 31 0%Q
  ∧ map admitted thirty_one = replicate 30 0%Q ++ [60%Q]
  ∧ length (admitted_in 0 61 thirty_one) = 31%nat
  ∧ map admitted sixty = [0%Q] ++ replicate 29 1%Q ++ replicate 30 60%Q
  ∧ length (admitted_in 1 60 sixty) = 59%nat.
Proof. split_and!; vm_compute; reflexivity. Qed.

(** * Further properties *)

(** ** More on the limiter *)

(** X1. Whenever a call finds the ceiling reached, the wait it computes is
    positive, so the call does sleep: it returns at the instant the oldest
    live timestamp turns 60 seconds old, the window is emptied down to the
    time read on entry (not the time of return), and one sleep is logged. *)
Theorem ceiling_sleeps_until_oldest_is_a_minute_old w :
  (max_requests_per_minute <= length (live w))%nat ->
  ∃ oldest,
    head (live w) = Some oldest
    ∧ (clock (after_admission w) == oldest + 60)%Q
    ∧ (clock w < clock (after_admission w))%Q
    ∧ request_times (after_admission w) = [clock w]
    ∧ slept (after_admission w) = slept w ++ [(60 - (clock w - oldest))%Q].
Proof.
  intros Hfull.
  destruct (check_full w Hfull) as (oldest & rest & Hlive & Hwait & ->).
  exists oldest. rewrite Hlive. cbn [clock request_times slept head].
  split_and!; [done|ring|lra|done|done].
Qed.

Lemma ceiling_sleeps_witness :
  let w := {| clock := 10; request_times := replicate 30 0%Q;
              sent := []; slept := [] |} in
  ∃ oldest,
    head (live w) = Some oldest
    ∧ (clock (after_admission w) == oldest + 60)%Q
    ∧ (clock w < clock (after_admission w))%Q
    ∧ request_times (after_admission w) = [clock w]
    ∧ slept (after_admission w) = slept w ++ [(60 - (clock w - oldest))%Q].
Proof.
  intros w. apply ceiling_sleeps_until_oldest_is_a_minute_old.
  vm_compute. lia.
Defined.

Lemma live_length w : (length (live w) <= length (request_times w))%nat.
Proof. apply length_filter. Qed.

Lemma run_calls_room gaps w :
  (length (request_times w) + length gaps <= max_requests_per_minute)%nat ->
  Forall (fun c => blocked c = false) (fst (run_calls gaps w))
  ∧ slept (snd (run_calls gaps w)) = slept w.
Proof.
  revert w. induction gaps as [|gap gaps IH]; intros w Hroom; [by split|].
  rewrite run_calls_cons. cbn [fst snd]. simpl in Hroom.
  pose proof (live_length (idle gap w)) as Hlive.
  change (request_times (idle gap w)) with (request_times w) in Hlive.
  destruct (check_cases (idle gap w))
    as [(_ & Hslept & _ & Hrt)|(Hfull & _)]; [|lia].
  destruct (IH (after_admission (idle gap w))) as [Hcs Hs].
  { rewrite Hrt, length_app. cbn [length]. lia. }
  split.
  - constructor; [|done]. cbn [blocked]. rewrite Hslept.
    by rewrite Nat.eqb_refl.
  - rewrite Hs, Hslept. done.
Qed.

(** X2. A limiter whose window is empty lets the next 30 calls through
    without a single sleep, however close together they come. *)
Theorem fresh_limiter_passes_thirty_calls gaps w :
  request_times w = [] ->
  (length gaps <= max_requests_per_minute)%nat ->
  Forall (fun c => blocked c = false) (fst (run_calls gaps w))
  ∧ slept (snd (run_calls gaps w)) = slept w.
Proof.
  intros Hfresh Hlen. apply run_calls_room. rewrite Hfresh. simpl. lia.
Qed.

Lemma fresh_limiter_witness :
  Forall (fun c => blocked c = false)
    (fst (run_calls (replicate 30 0%Q) Demo.world0))
  ∧ slept (snd (run_calls (replicate 30 0%Q) Demo.world0)) = [].
Proof.
  apply (fresh_limiter_passes_thirty_calls (replicate 30 0%Q) Demo.world0).
  - reflexivity.
  - vm_compute. lia.
Defined.

Lemma two_times_succ k : (two_times (S k) == two_times k + 2)%Q.
Proof.
  unfold two_times. rewrite Nat2Z.inj_succ. unfold Z.succ.
  rewrite inject_Z_plus. change (inject_Z 1) with 1%Q. ring.
Qed.

Lemma filter_length_mono {A} (P R : A -> Prop)
    `{!∀ x, Decision (P x)} `{!∀ x, Decision (R x)} (l : list A) :
  (∀ x, P x -> R x) -> (length (filter P l) <= length (filter R l))%nat.
Proof.
  intros Himpl. induction l as [|a l IH]; [done|].
  rewrite !filter_cons. destruct (decide (P a)) as [Hp|Hp].
  - rewrite decide_True by auto. simpl. lia.
  - case_decide; simpl; lia.
Qed.

(** A call made at least two seconds after a paced window was left finds
    fewer than 30 live timestamps, does not sleep, and leaves a paced
    window. *)
Lemma paced_step gap w :
  (2 <= gap)%Q ->
  paced (clock w) (request_times w) ->
  slept (after_admission (idle gap w)) = slept w
  ∧ paced (clock (after_admission (idle gap w)))
      (request_times (after_admission (idle gap w))).
Proof.
  intros Hgap Hpaced.
  assert (∀ k, length (younger (clock w + gap) (two_times (S k))
                         (request_times w)) <= k)%nat as Hshift.
  { intros k. etrans; [|apply (Hpaced k)]. apply filter_length_mono.
    intros t Ht. pose proof (two_times_succ k). lra. }
  assert (length (live (idle gap w)) < max_requests_per_minute)%nat as Hunder.
  { pose proof (Hshift 29%nat) as H29.
    assert (length (live (idle gap w))
            <= length (younger (clock w + gap) (two_times 30) (request_times w)))%nat
      as Hle; [|unfold max_requests_per_minute; lia].
    apply filter_length_mono. intros t Ht. cbn in Ht.
    change (two_times 30) with 60%Q. exact Ht. }
  rewrite (check_under _ Hunder). cbn [slept clock request_times idle].
  split; [done|]. intros k. unfold younger. rewrite filter_app, length_app.
  assert (length (filter (fun t => clock w + gap - t < two_times k)%Q
                    (live (idle gap w)))
          <= length (younger (clock w + gap) (two_times k) (request_times w)))%nat
    as Hlive.
  { unfold live. rewrite list_filter_filter. apply filter_length_mono. tauto. }
  destruct k as [|k].
  - assert (length (younger (clock w + gap) (two_times 0) (request_times w)) <= 0)%nat
      as Hzero.
    { etrans; [|apply (Hpaced 0%nat)]. apply filter_length_mono.
      intros t Ht. lra. }
    rewrite filter_cons, decide_False; [simpl; lia|].
    change (two_times 0) with 0%Q. lra.
  - pose proof (Hshift k) as Hk.
    pose proof (length_filter (fun t => clock w + gap - t < two_times (S k))%Q
                  [(clock w + gap)%Q]) as Hone.
    simpl in Hone. lia.
Qed.

Lemma run_calls_paced gaps w :
  paced (clock w) (request_times w) ->
  Forall (fun gap => 2 <= gap)%Q gaps ->
  Forall (fun c => blocked c = false) (fst (run_calls gaps w))
  ∧ slept (snd (run_calls gaps w)) = slept w.
Proof.
  revert w. induction gaps as [|gap gaps IH]; intros w Hpaced Hgaps; [by split|].
  apply Forall_cons in Hgaps as [Hgap Hgaps].
  rewrite run_calls_cons. cbn [fst snd].
  destruct (paced_step gap w Hgap Hpaced) as [Hslept Hpaced'].
  destruct (IH _ Hpaced' Hgaps) as [Hcs Hs].
  split.
  - constructor; [|done]. cbn [blocked]. rewrite Hslept.
    change (slept (idle gap w)) with (slept w). by rewrite Nat.eqb_refl.
  - by rewrite Hs.
Qed.

(** X3. A caller that lets at least two seconds pass between the return of
    one call and the next is never made to wait, however many calls it makes:
    starting from an empty window no call sleeps. *)
Theorem two_seconds_apart_never_waits gaps w :
  request_times w = [] ->
  Forall (fun gap => 2 <= gap)%Q gaps ->
  Forall (fun c => blocked c = false) (fst (run_calls gaps w))
  ∧ slept (snd (run_calls gaps w)) = slept w.
Proof.
  intros Hfresh Hgaps. apply run_calls_paced; [|done].
  intros k. rewrite Hfresh. simpl. lia.
Qed.

Lemma two_seconds_apart_witness :
  Forall (fun c => blocked c = false)
    (fst (run_calls (replicate 100 2%Q) Demo.world0))
  ∧ slept (snd (run_calls (replicate 100 2%Q) Demo.world0)) = [].
Proof.
  apply (two_seconds_apart_never_waits (replicate 100 2%Q) Demo.world0).
  - reflexivity.
  - apply Forall_replicate. apply Qle_refl.
Defined.

(** ** More on validation *)

Section MoreValidation.

Variable api_key : string.
Variable network : World -> Request -> Q * (pyexn + Response).
Variable fault_str : fault -> string.

Local Abbreviation validate := (validate_steam_id api_key network fault_str).
Local Abbreviation lookup_of s w :=
  (network (after_admission w) (summaries_request api_key (PyStr.strip s))).

Lemma format_validb_spec s : format_validb s = true <-> format_valid s.
Proof.
  unfold format_validb, format_valid.
  rewrite andb_true_iff, Nat.eqb_eq. tauto.
Qed.

(** An identifier that fails the format check is answered on the spot. *)
Lemma validate_not_format_valid s w :
  format_validb s = false ->
  snd (validate s w) = w ∧ fst (fst (validate s w)) = false.
Proof.
  unfold format_validb, validate_steam_id, PyStr.isdigit.
  destruct (PyStr.is_empty (PyStr.strip s)); [done|]. cbn [negb andb].
  destruct (PyStr.all_chars PyStr.isdigit_char (PyStr.strip s)); [|done].
  cbn [negb andb]. by intros ->.
Qed.

(** X4. [validate_steam_id] sends exactly one request for an identifier that
    passes the format check, whatever the network answers (a failure is
    never retried), and sends nothing, records nothing and waits for
    nothing for one that does not. *)
Theorem validate_sends_one_request_or_none s w :
  (format_validb s = true ->
     sent (snd (validate s w))
     = sent w ++ [summaries_request api_key (PyStr.strip s)])
  ∧ (format_validb s = false -> snd (validate s w) = w).
Proof.
  split.
  - intros Hfmt%format_validb_spec.
    destruct (lookup_of s w) as [elapsed outcome] eqn:Hnet.
    by rewrite (validate_world _ _ _ _ _ _ _ Hfmt Hnet).
  - intros Hfmt. by apply validate_not_format_valid.
Qed.

(** X5. [validate_steam_id] never answers Valid on its own authority: when
    it returns true the identifier passed the format check, the lookup
    answered 200 with a body that parsed, and [data['response']['players']]
    is there with a length above zero. *)
Theorem valid_only_after_a_200_with_players s w :
  fst (fst (validate s w)) = true ->
  format_valid s
  ∧ ∃ elapsed r data players n,
      lookup_of s w = (elapsed, inr r)
      ∧ status_code r = 200
      ∧ json_body r = inr data
      ∧ get_nested data "response" "players" = inr players
      ∧ py_len players = inr n ∧ (0 < n)%nat.
Proof.
  intros Hvalid.
  destruct (format_validb s) eqn:Hb.
  2:{ destruct (validate_not_format_valid s w Hb) as [_ Hfalse]. congruence. }
  apply format_validb_spec in Hb. split; [done|].
  destruct (lookup_of s w) as [elapsed [e|r]] eqn:Hnet.
  { rewrite (validate_raises _ _ _ _ _ _ _ Hb Hnet) in Hvalid. by destruct e. }
  destruct (decide (status_code r = 403)) as [H403|H403].
  { by rewrite (validate_403 _ _ _ _ _ _ _ Hb Hnet H403) in Hvalid. }
  destruct (decide (status_code r = 429)) as [H429|H429].
  { by rewrite (validate_429 _ _ _ _ _ _ _ Hb Hnet H429) in Hvalid. }
  destruct (decide (status_code r = 200)) as [H200|H200].
  2:{ by rewrite (validate_other_status _ _ _ _ _ _ _ Hb Hnet H403 H429 H200)
        in Hvalid. }
  destruct (json_body r) as [e|data] eqn:Hj.
  { exfalso. revert Hvalid. clear -Hb Hnet H200 Hj.
    apply format_valid_checks in Hb as (He & Hd & Hl).
    unfold validate_steam_id. rewrite He, Hd, Hl. simpl.
    unfold try_except, bind_exn, lift, bind, requests_get.
    rewrite rate_limit_check_eq. simpl.
    unfold summaries_request in Hnet. rewrite Hnet. simpl. rewrite H200. simpl.
    unfold response_json, ret. rewrite Hj. simpl. by destruct e. }
  rewrite (validate_200 _ _ _ _ _ _ _ _ Hb Hnet H200 Hj) in Hvalid.
  destruct (has_nested data "response" "players") as [f|[]]; try done.
  destruct (get_nested data "response" "players") as [f|players] eqn:Hg; [done|].
  destruct (py_len players) as [f|n] eqn:Hn; [done|].
  destruct (0 <? n)%nat eqn:Hpos; [|done].
  exists elapsed, r, data, players, n. split_and!; try done.
  by apply Nat.ltb_lt.
Qed.

(** X6. A 200 answer whose body does not parse is reported according to the
    class of the exception that [response.json()] raises: as a network error
    carrying its text when it is one of the library's own exceptions, as a
    validation error otherwise. *)
Theorem unparsed_body_is_reported_by_its_exception s w elapsed r e :
  format_valid s -> lookup_of s w = (elapsed, inr r) ->
  status_code r = 200 -> json_body r = inl e ->
  fst (validate s w) =
    match e with
    | Timeout _ => returned_by (NetworkError TimedOut)
    | RequestException detail => returned_by (NetworkError (TransportFailure detail))
    | Exception msg => (false, "Validation error: " +:+ msg)
    end.
Proof.
  intros Hfmt Hnet H200 Hj.
  apply format_valid_checks in Hfmt as (He & Hd & Hl).
  unfold validate_steam_id. rewrite He, Hd, Hl. simpl.
  unfold try_except, bind_exn, lift, bind, requests_get.
  rewrite rate_limit_check_eq. simpl.
  unfold summaries_request in Hnet. rewrite Hnet. simpl. rewrite H200. simpl.
  unfold response_json, ret. rewrite Hj. simpl. by destruct e.
Qed.

(** *** The friend list *)

Local Abbreviation fetch := (get_friend_list api_key network fault_str).
Local Abbreviation answer_of id w :=
  (network (after_admission w) (friends_request api_key id)).

(** The element expression of the comprehension of [get_friend_list]. *)
Local Abbreviation steamid_of :=
  (fun friend => py_getitem friend "steamid").

Ltac enter_fetch Hnet :=
  unfold get_friend_list;
  unfold try_except, bind_exn, lift, bind, requests_get;
  rewrite rate_limit_check_eq; simpl;
  unfold friends_request in Hnet; rewrite Hnet; simpl.

Lemma fetch_world id w elapsed outcome :
  answer_of id w = (elapsed, outcome) ->
  snd (fetch id w) =
    {| clock := (clock (after_admission w) + elapsed)%Q;
       request_times := request_times (after_admission w);
       sent := sent w ++ [friends_request api_key id];
       slept := slept (after_admission w) |}.
Proof.
  intros Hnet. rewrite <- rate_limit_check_sent. enter_fetch Hnet.
  destruct outcome as [e|r]; simpl; [by destruct e|].
  destruct (status_code r =? 401); [done|].
  destruct (status_code r =? 403); [done|].
  destruct (status_code r =? 429); [done|].
  destruct (status_code r =? 200); [|done]. simpl.
  unfold response_json, ret.
  destruct (json_body r) as [e|data]; simpl; [by destruct e|].
  destruct (has_nested _ _ _) as [f|[]]; simpl; try done.
  destruct (get_nested _ _ _) as [f|friends]; simpl; try done.
  destruct (py_iter friends) as [f|items]; simpl; try done.
  by destruct (comprehension _ items).
Qed.

Lemma fetch_200 id w elapsed r data :
  answer_of id w = (elapsed, inr r) ->
  status_code r = 200 -> json_body r = inr data ->
  fst (fetch id w) =
    match has_nested data "friendslist" "friends" with
    | inl f => (false, [], "Error retrieving friend list: " +:+ fault_str f)
    | inr false => Fetch.returned_by (Fetch.UnexpectedResponse MalformedBody)
    | inr true =>
        match get_nested data "friendslist" "friends" with
        | inl f => (false, [], "Error retrieving friend list: " +:+ fault_str f)
        | inr friends =>
            match py_iter friends with
            | inl f => (false, [], "Error retrieving friend list: " +:+ fault_str f)
            | inr items =>
                match comprehension steamid_of items with
                | inl f =>
                    (false, [], "Error retrieving friend list: " +:+ fault_str f)
                | inr friend_ids => (true, friend_ids, "")
                end
            end
        end
    end.
Proof.
  intros Hnet H200 Hj. enter_fetch Hnet. rewrite H200. simpl.
  unfold response_json, ret. rewrite Hj. simpl.
  destruct (has_nested _ _ _) as [f|[]]; simpl; try done.
  destruct (get_nested _ _ _) as [f|friends]; simpl; try done.
  destruct (py_iter friends) as [f|items]; simpl; try done.
  by destruct (comprehension _ items).
Qed.

Lemma comprehension_entries ids items :
  Forall2 friend_entry ids items ->
  comprehension steamid_of items = inr (JStr <$> ids).
Proof.
  induction 1 as [|id item ids items (fields & -> & Hid) _ IH]; [done|].
  rewrite fmap_cons. cbn [comprehension py_getitem]. by rewrite Hid, IH.
Qed.

Lemma comprehension_missing ids before fields rest :
  Forall2 friend_entry ids before ->
  lookup_field "steamid" fields = None ->
  comprehension steamid_of (before ++ JObj fields :: rest)
  = inl (KeyError "steamid").
Proof.
  intros Hbefore Hnone.
  induction Hbefore as [|id item ids items (fields' & -> & Hid) _ IH];
    cbn [app comprehension py_getitem].
  - by rewrite Hnone.
  - by rewrite Hid, IH.
Qed.

(** X7. [get_friend_list] sends exactly one request, for the identifier it
    was given with the friend relationship, whatever the answer: no status,
    exception or body makes it send a second one or none. *)
Theorem get_friend_list_sends_one_request id w :
  sent (snd (fetch id w)) = sent w ++ [friends_request api_key id].
Proof.
  destruct (answer_of id w) as [elapsed outcome] eqn:Hnet.
  by rewrite (fetch_world _ _ _ _ Hnet).
Qed.

(** X8. From a 200 answer whose [friendslist.friends] is an array of
    objects that each hold a string under [steamid], [get_friend_list]
    returns success with exactly those identifiers in the order of the array,
    duplicates and all, ignoring the other fields of the entries; an empty
    array gives success with an empty list. *)
Theorem get_friend_list_reads_the_ids id w elapsed r data items ids :
  answer_of id w = (elapsed, inr r) ->
  status_code r = 200 -> json_body r = inr data ->
  get_nested data "friendslist" "friends" = inr (JArr items) ->
  Forall2 friend_entry ids items ->
  fst (fetch id w) = (true, JStr <$> ids, "").
Proof.
  intros Hnet H200 Hj Hg Hids.
  rewrite (fetch_200 _ _ _ _ _ Hnet H200 Hj).
  rewrite (get_nested_has_nested _ _ _ _ Hg), Hg. simpl.
  by rewrite (comprehension_entries _ _ Hids).
Qed.

(** X9. One entry without a [steamid] key spoils the whole answer:
    [get_friend_list] then fails with the error of the missing key and
    returns no identifier, not even those of the entries before it. *)
Theorem one_entry_without_steamid_fails_the_fetch
    id w elapsed r data ids before fields rest :
  answer_of id w = (elapsed, inr r) ->
  status_code r = 200 -> json_body r = inr data ->
  get_nested data "friendslist" "friends"
    = inr (JArr (before ++ JObj fields :: rest)) ->
  Forall2 friend_entry ids before ->
  lookup_field "steamid" fields = None ->
  fst (fetch id w)
  = (false, [], "Error retrieving friend list: " +:+ fault_str (KeyError "steamid")).
Proof.
  intros Hnet H200 Hj Hg Hids Hnone.
  rewrite (fetch_200 _ _ _ _ _ Hnet H200 Hj).
  rewrite (get_nested_has_nested _ _ _ _ Hg), Hg. simpl.
  by rewrite (comprehension_missing _ _ _ _ Hids Hnone).
Qed.

Lemma comprehension_values values items :
  Forall2 value_entry values items ->
  comprehension steamid_of items = inr values.
Proof.
  induction 1 as [|v item values items (fields & -> & Hv) _ IH]; [done|].
  cbn [comprehension py_getitem]. by rewrite Hv, IH.
Qed.

(** X25. [get_friend_list] checks no type: from a 200 answer whose
    [friendslist.friends] is an array of objects with a [steamid] key it
    returns success with the values found under that key, whatever they
    are, a number or a list as well as a string. *)
Theorem get_friend_list_checks_no_type id w elapsed r data items values :
  answer_of id w = (elapsed, inr r) ->
  status_code r = 200 -> json_body r = inr data ->
  get_nested data "friendslist" "friends" = inr (JArr items) ->
  Forall2 value_entry values items ->
  fst (fetch id w) = (true, values, "").
Proof.
  intros Hnet H200 Hj Hg Hvalues.
  rewrite (fetch_200 _ _ _ _ _ Hnet H200 Hj).
  rewrite (get_nested_has_nested _ _ _ _ Hg), Hg. simpl.
  by rewrite (comprehension_values _ _ Hvalues).
Qed.

End MoreValidation.

Lemma validate_sends_one_request_or_none_witness :
  sent (snd (validate_steam_id "KEY" (Demo.failing (Timeout "timed out"))
               Demo.describe Demo.ann Demo.world0))
  = [summaries_request "KEY" Demo.ann]
  ∧ snd (validate_steam_id "KEY" Demo.steam Demo.describe "notanumber" Demo.world0)
    = Demo.world0.
Proof.
  split.
  - apply (validate_sends_one_request_or_none "KEY"
             (Demo.failing (Timeout "timed out")) Demo.describe Demo.ann
             Demo.world0). reflexivity.
  - apply (validate_sends_one_request_or_none "KEY" Demo.steam Demo.describe
             "notanumber" Demo.world0). reflexivity.
Defined.

Lemma valid_only_after_a_200_with_players_witness :
  format_valid Demo.ann
  ∧ ∃ elapsed r data players n,
      Demo.steam (after_admission Demo.world0)
        (summaries_request "KEY" (PyStr.strip Demo.ann)) = (elapsed, inr r)
      ∧ status_code r = 200
      ∧ json_body r = inr data
      ∧ get_nested data "response" "players" = inr players
      ∧ py_len players = inr n ∧ (0 < n)%nat.
Proof.
  apply (valid_only_after_a_200_with_players "KEY" Demo.steam Demo.describe
           Demo.ann Demo.world0). reflexivity.
Defined.

Lemma unparsed_body_witness :
  let r := {| status_code := 200;
              json_body := inl (RequestException "Expecting value") |} in
  fst (validate_steam_id "KEY" (fun _ _ => (0%Q, inr r)) Demo.describe
         Demo.ann Demo.world0)
  = returned_by (NetworkError (TransportFailure "Expecting value")).
Proof.
  intros r.
  apply (unparsed_body_is_reported_by_its_exception "KEY"
           (fun _ _ => (0%Q, inr r)) Demo.describe Demo.ann Demo.world0 0%Q r
           (RequestException "Expecting value") ann_format_valid);
    reflexivity.
Defined.

Lemma get_friend_list_reads_the_ids_witness :
  let entry id since := JObj [("steamid", JStr id);
                              ("relationship", JStr "friend");
                              ("friend_since", JNum since)] in
  let data := JObj [("friendslist",
                     JObj [("friends", JArr [entry Demo.bob 1500000000%Q;
                                             entry Demo.me 1600000000%Q;
                                             entry Demo.bob 1700000000%Q])])] in
  fst (get_friend_list "KEY" (Demo.always 200 data) Demo.describe Demo.ann
         Demo.world0)
  = (true, JStr <$> [Demo.bob; Demo.me; Demo.bob], "").
Proof.
  intros entry data.
  eapply (get_friend_list_reads_the_ids "KEY" (Demo.always 200 data)
            Demo.describe Demo.ann Demo.world0); try reflexivity.
  repeat constructor; eexists; (split; [reflexivity|reflexivity]).
Defined.

Lemma get_friend_list_checks_no_type_witness :
  fst (get_friend_list "KEY" Demo.steam_with_number Demo.describe Demo.ann
         Demo.world0)
  = (true, [JStr Demo.me; Demo.bob_number], "").
Proof.
  eapply (get_friend_list_checks_no_type "KEY" Demo.steam_with_number
            Demo.describe Demo.ann Demo.world0); try reflexivity.
  repeat constructor; eexists; (split; [reflexivity|reflexivity]).
Defined.

Lemma one_entry_without_steamid_witness :
  let data := JObj [("friendslist",
                     JObj [("friends",
                            JArr [JObj [("steamid", JStr Demo.bob)];
                                  JObj [("relationship", JStr "friend")];
                                  JObj [("steamid", JStr Demo.me)]])])] in
  fst (get_friend_list "KEY" (Demo.always 200 data) Demo.describe Demo.ann
         Demo.world0)
  = (false, [], "Error retrieving friend list: 'steamid'").
Proof.
  intros data.
  apply (one_entry_without_steamid_fails_the_fetch "KEY" (Demo.always 200 data)
           Demo.describe Demo.ann Demo.world0 0%Q
           {| status_code := 200; json_body := inr data |} data
           [Demo.bob] [JObj [("steamid", JStr Demo.bob)]]
           [("relationship", JStr "friend")]
           [JObj [("steamid", JStr Demo.me)]]); try reflexivity.
  repeat constructor. eexists. split; reflexivity.
Defined.

(** The request logs the two lookups leave. *)
Lemma fetch_sent api_key network fault_str id w :
  sent (snd (get_friend_list api_key network fault_str id w))
  = sent w ++ [friends_request api_key id].
Proof.
  destruct (network (after_admission w) (friends_request api_key id))
    as [elapsed outcome] eqn:Hnet.
  by rewrite (fetch_world _ _ _ _ _ _ _ Hnet).
Qed.

Lemma validate_sent api_key network fault_str s w :
  sent (snd (validate_steam_id api_key network fault_str s w))
  = sent w ++ (if format_validb s
               then [summaries_request api_key (PyStr.strip s)] else []).
Proof.
  destruct (format_validb s) eqn:Hfmt.
  - apply format_validb_spec in Hfmt.
    destruct (network (after_admission w)
                (summaries_request api_key (PyStr.strip s)))
      as [elapsed outcome] eqn:Hnet.
    by rewrite (validate_world _ _ _ _ _ _ _ Hfmt Hnet).
  - destruct (validate_not_format_valid api_key network fault_str s w Hfmt)
      as [-> _].
    by rewrite app_nil_r.
Qed.

(** ** More on candidate selection and the batches *)

Section MoreBatch.

Variables (api_key self_id : string).
Variable network : World -> Request -> Q * (pyexn + Response).
Variable path_exists : string -> bool.
Variable readlines : string -> pyexn + list string.
Variable fault_str : fault -> string.

Local Abbreviation validate := (validate_steam_id api_key network fault_str).
Local Abbreviation fetch := (get_friend_list api_key network fault_str).
Local Abbreviation mutual := (get_mutual_friends api_key self_id network fault_str).
Local Abbreviation attempt_ := (attempt api_key network fault_str).
Local Abbreviation process_line_ := (process_line api_key network fault_str).
Local Abbreviation add_one_ := (add_one api_key network fault_str).
Local Abbreviation process_file :=
  (process_steam_ids_file api_key network path_exists readlines fault_str).
Local Abbreviation add_all :=
  (add_mutual_friends api_key self_id network fault_str).

(** X10. When the own friend list cannot be fetched, [get_mutual_friends]
    fails with that error behind the words for the own list, and the
    target's list is not asked for: the one request sent is the one for the
    own identifier. *)
Theorem own_list_failure_stops_the_selection target w :
  fst (fst (fst (fetch self_id w))) = false ->
  fst (mutual target w)
  = inr (false, [],
         "Failed to get your friend list: " +:+ snd (fst (fetch self_id w)))
  ∧ sent (snd (mutual target w)) = sent w ++ [friends_request api_key self_id].
Proof.
  intros Hfail. unfold get_mutual_friends, bind.
  pose proof (fetch_sent api_key network fault_str self_id w) as Hsent.
  destruct (fetch self_id w) as [[[ok1 l1] e1] w1]. simpl in *. subst ok1.
  by split.
Qed.

(** X11. When the own friend list is fetched, [get_mutual_friends] goes on
    to ask for the target's list, in that order and with nothing in between;
    if that second fetch fails, the result is its error behind the words
    for the target's list. *)
Theorem target_list_is_fetched_second target w :
  fst (fst (fst (fetch self_id w))) = true ->
  sent (snd (mutual target w))
  = sent w ++ [friends_request api_key self_id; friends_request api_key target]
  ∧ (fst (fst (fst (fetch target (snd (fetch self_id w))))) = false ->
     fst (mutual target w)
     = inr (false, [], "Failed to get target user's friend list: "
                       +:+ snd (fst (fetch target (snd (fetch self_id w)))))).
Proof.
  intros Hok. unfold get_mutual_friends, bind.
  pose proof (fetch_sent api_key network fault_str self_id w) as Hsent1.
  destruct (fetch self_id w) as [[[ok1 l1] e1] w1]. simpl in *. subst ok1.
  simpl.
  pose proof (fetch_sent api_key network fault_str target w1) as Hsent2.
  destruct (fetch target w1) as [[[ok2 l2] e2] w2]. simpl in *.
  split.
  - destruct ok2; simpl; [|by rewrite Hsent2, Hsent1, <- app_assoc].
    unfold bind_exn, bind.
    destruct (potential_values self_id l1 l2); simpl;
      by rewrite Hsent2, Hsent1, <- app_assoc.
  - by intros ->.
Qed.



Lemma attempt_world id d w :
  snd (attempt_ id d w) = sleep_world 1 (snd (validate id w)).
Proof.
  unfold attempt, send_friend_request, bind, time_sleep.
  destruct (validate id w) as [[valid msg] w1]. by destruct valid.
Qed.

Lemma dict_incr_lookup_ne k k' d : k ≠ k' -> dict_incr k d !! k' = d !! k'.
Proof.
  intros Hne. unfold dict_incr.
  destruct (d !! k) as [[n|s]|]; by rewrite ?lookup_insert_ne.
Qed.

Lemma attempt_error id d w : fst (attempt_ id d w) !! "error" = d !! "error".
Proof.
  rewrite attempt_result.
  destruct (fst (fst (validate id w))); by rewrite dict_incr_lookup_ne.
Qed.

Lemma process_line_error line d w :
  fst (process_line_ line d w) !! "error" = d !! "error".
Proof.
  destruct (skipped_line line) eqn:Hskip.
  - rewrite process_line_skipped by done. simpl. by rewrite dict_incr_lookup_ne.
  - rewrite process_line_counted, attempt_error by done.
    by rewrite dict_incr_lookup_ne.
Qed.

Lemma counted_lines_cons line lines :
  counted_lines (line :: lines)
  = if skipped_line line then counted_lines lines
    else line :: counted_lines lines.
Proof.
  unfold counted_lines. rewrite filter_cons.
  destruct (skipped_line line); by case_decide.
Qed.

Lemma counted_lines_length lines :
  (length (counted_lines lines) <= length lines)%nat.
Proof. apply length_filter. Qed.

(** The counters after the file loop. *)
Lemma for_each_process_tallies lines :
  ∀ d w t s f i k,
    tallies d = Some (t, s, f, i, k) ->
    ∃ t' s' i' k',
      tallies (fst (for_each lines process_line_ d w)) = Some (t', s', f, i', k')
      ∧ t' = t + Z.of_nat (length (counted_lines lines))
      ∧ k' = k + Z.of_nat (length lines - length (counted_lines lines))
      ∧ s' + i' = s + i + Z.of_nat (length (counted_lines lines)).
Proof.
  induction lines as [|line lines IH]; intros d w t s f i k Hd.
  - exists t, s, i, k. simpl. rewrite Hd. split_and!; try done; lia.
  - simpl. unfold bind.
    pose proof (process_line_tallies api_key network fault_str line d w
                  _ _ _ _ _ Hd) as Hstep.
    pose proof (counted_lines_length lines) as Hlen.
    destruct (process_line_ line d w) as [d1 w1]. simpl in Hstep.
    rewrite counted_lines_cons.
    destruct (skipped_line line);
      [|destruct (fst (fst (validate (PyStr.strip line) w)))];
      destruct (IH d1 w1 _ _ _ _ _ Hstep) as (t' & s' & i' & k' & -> & Ht & Hk & Hsum);
      exists t', s', i', k'; cbn [length]; split_and!; try done; lia.
Qed.

Lemma for_each_process_error lines :
  ∀ d w, fst (for_each lines process_line_ d w) !! "error" = d !! "error".
Proof.
  induction lines as [|line lines IH]; intros d w; [done|].
  simpl. unfold bind.
  pose proof (process_line_error line d w) as Hstep.
  destruct (process_line_ line d w) as [d1 w1]. simpl in Hstep.
  by rewrite IH.
Qed.

(** X12. For a file that can be read, the counters returned account for
    every line: [skipped] is the number of blank and comment lines, [total]
    the number of the others, [success] and [invalid] add up to [total],
    [failed] is zero, and there is no error entry. *)
Theorem file_counters_account_for_every_line path w lines :
  path_exists path = true -> readlines path = inr lines ->
  fst (process_file path w) !! "error" = None
  ∧ ∃ s i,
      tallies (fst (process_file path w))
      = Some (Z.of_nat (length (counted_lines lines)), s, 0, i,
              Z.of_nat (length lines - length (counted_lines lines)))
      ∧ s + i = Z.of_nat (length (counted_lines lines)).
Proof.
  intros Hexists Hread. unfold process_steam_ids_file, bind.
  rewrite Hexists, Hread. simpl.
  pose proof (for_each_process_error lines fresh_results w) as Herr.
  destruct (for_each_process_tallies lines fresh_results w 0 0 0 0 0 eq_refl)
    as (t & s & i & k & Ht & -> & -> & Hsum).
  destruct (for_each lines process_line_ fresh_results w) as [d w']. simpl in *.
  split; [by rewrite Herr|]. exists s, i. by rewrite Ht.
Qed.










Lemma for_each_skipped lines :
  Forall (fun line => skipped_line line = true) lines ->
  ∀ d w, snd (for_each lines process_line_ d w) = w.
Proof.
  induction 1 as [|line lines Hskip _ IH]; intros d w; [done|].
  simpl. unfold bind. rewrite process_line_skipped by done. apply IH.
Qed.

Lemma counted_lines_none lines :
  Forall (fun line => skipped_line line = true) lines ->
  counted_lines lines = [].
Proof.
  induction 1 as [|line lines Hskip _ IH]; [done|].
  by rewrite counted_lines_cons, Hskip.
Qed.

Lemma for_each_skipped_tallies lines :
  Forall (fun line => skipped_line line = true) lines ->
  ∀ d w t s f i k,
    tallies d = Some (t, s, f, i, k) ->
    ∃ k', tallies (fst (for_each lines process_line_ d w)) = Some (t, s, f, i, k')
          ∧ k' = k + Z.of_nat (length lines).
Proof.
  induction 1 as [|line lines Hskip _ IH]; intros d w t s f i k Hd.
  - exists k. simpl. split; [done|lia].
  - simpl. unfold bind.
    pose proof (process_line_tallies api_key network fault_str line d w
                  _ _ _ _ _ Hd) as Hstep.
    rewrite Hskip in Hstep.
    destruct (process_line_ line d w) as [d1 w1]. simpl in Hstep.
    destruct (IH d1 w1 _ _ _ _ _ Hstep) as (k' & Hk' & ->).
    exists (k + 1 + Z.of_nat (length lines)). split; [done|lia].
Qed.

(** X14. A file that holds nothing but blank lines and comments costs
    nothing: no request is sent, no pause is taken, the limiter's window and
    the clock are as before, and the result counts every line as skipped. *)
Theorem blank_and_comment_lines_cost_nothing path w lines :
  path_exists path = true -> readlines path = inr lines ->
  Forall (fun line => skipped_line line = true) lines ->
  snd (process_file path w) = w
  ∧ tallies (fst (process_file path w))
    = Some (0, 0, 0, 0, Z.of_nat (length lines)).
Proof.
  intros Hexists Hread Hskip. unfold process_steam_ids_file, bind.
  rewrite Hexists, Hread. simpl.
  pose proof (for_each_skipped lines Hskip fresh_results w) as Hw.
  destruct (for_each_skipped_tallies lines Hskip fresh_results w 0 0 0 0 0 eq_refl)
    as (k' & Hk' & ->).
  destruct (for_each lines process_line_ fresh_results w) as [d w']. simpl in *.
  split; [done|]. by rewrite Hk'.
Qed.

Lemma seconds_succ n : (seconds (S n) == seconds n + 1)%Q.
Proof.
  unfold seconds. rewrite Nat2Z.inj_succ. unfold Z.succ.
  rewrite inject_Z_plus. reflexivity.
Qed.

Lemma rate_limit_clock w : (clock w <= clock (after_admission w))%Q.
Proof.
  destruct (check_cases w) as [(_ & _ & -> & _)|(_ & _ & Hlt & _)]; lra.
Qed.

Section Latency.

(** No request is answered before it is sent. *)
Hypothesis latency : ∀ w request, (0 <= fst (network w request))%Q.

Lemma validate_clock s w : (clock w <= clock (snd (validate s w)))%Q.
Proof.
  destruct (format_validb s) eqn:Hfmt.
  - apply format_validb_spec in Hfmt.
    pose proof (latency (after_admission w)
                  (summaries_request api_key (PyStr.strip s))) as Hlat.
    destruct (network (after_admission w)
                (summaries_request api_key (PyStr.strip s)))
      as [elapsed outcome] eqn:Hnet.
    rewrite (validate_world _ _ _ _ _ _ _ Hfmt Hnet). cbn [clock fst] in *.
    pose proof (rate_limit_clock w). lra.
  - destruct (validate_not_format_valid api_key network fault_str s w Hfmt)
      as [-> _]. lra.
Qed.

Lemma for_each_process_clock lines :
  ∀ d w, (clock w + seconds (length (counted_lines lines))
          <= clock (snd (for_each lines process_line_ d w)))%Q.
Proof.
  induction lines as [|line lines IH]; intros d w.
  - simpl. change (seconds 0) with 0%Q. lra.
  - simpl. unfold bind. rewrite counted_lines_cons.
    destruct (skipped_line line) eqn:Hskip.
    + rewrite process_line_skipped by done. apply IH.
    + pose proof (attempt_world (PyStr.strip line) (dict_incr "total" d) w) as Hw.
      pose proof (validate_clock (PyStr.strip line) w) as Hv.
      rewrite process_line_counted by done.
      destruct (attempt_ (PyStr.strip line) (dict_incr "total" d) w) as [d1 w1].
      simpl in Hw. specialize (IH d1 w1). subst w1. cbn [length].
      pose proof (seconds_succ (length (counted_lines lines))).
      simpl in IH. lra.
Qed.

(** X15. Provided no answer arrives before its request is sent, a run over
    a readable file lasts at least one second for each line that is neither
    blank nor a comment: the pause after an item is taken whatever its
    outcome. *)
Theorem file_run_lasts_a_second_per_counted_line path w lines :
  path_exists path = true -> readlines path = inr lines ->
  (clock w + seconds (length (counted_lines lines))
   <= clock (snd (process_file path w)))%Q.
Proof.
  intros Hexists Hread. unfold process_steam_ids_file, bind.
  rewrite Hexists, Hread. simpl.
  pose proof (for_each_process_clock lines fresh_results w) as Hclock.
  by destruct (for_each lines process_line_ fresh_results w).
Qed.

End Latency.


Lemma add_one_error id d w : fst (add_one_ id d w) !! "error" = d !! "error".
Proof. unfold add_one. by rewrite attempt_error, dict_incr_lookup_ne. Qed.

Lemma for_each_add_tallies ids :
  ∀ d w t s f i k,
    tallies d = Some (t, s, f, i, k) ->
    ∃ t' s' i',
      tallies (fst (for_each ids add_one_ d w)) = Some (t', s', f, i', k)
      ∧ t' = t + Z.of_nat (length ids)
      ∧ s' + i' = s + i + Z.of_nat (length ids).
Proof.
  induction ids as [|id ids IH]; intros d w t s f i k Hd.
  - exists t, s, i. simpl. split_and!; try done; lia.
  - simpl. unfold bind.
    pose proof (add_one_tallies api_key network fault_str id d w _ _ _ _ _ Hd)
      as Hstep.
    destruct (add_one_ id d w) as [d1 w1]. simpl in Hstep.
    destruct (fst (fst (validate id w)));
      destruct (IH d1 w1 _ _ _ _ _ Hstep) as (t' & s' & i' & -> & Ht & Hsum);
      exists t', s', i'; cbn [length]; split_and!; try done; lia.
Qed.

Lemma for_each_add_error ids :
  ∀ d w, fst (for_each ids add_one_ d w) !! "error" = d !! "error".
Proof.
  induction ids as [|id ids IH]; intros d w; [done|].
  simpl. unfold bind.
  pose proof (add_one_error id d w) as Hstep.
  destruct (add_one_ id d w) as [d1 w1]. simpl in Hstep.
  by rewrite IH.
Qed.

Lemma all_strings (items : list json) :
  Forall (fun v => is_string v = true) items -> ∃ ids, items = JStr <$> ids.
Proof.
  induction 1 as [|v items Hv _ [ids ->]]; [by exists []|].
  destruct v; try discriminate. by exists (s :: ids).
Qed.

(** X17. When the target is valid and the candidates that have been
    selected are all strings, [add_mutual_friends] returns counters that
    account for every candidate: [total] is their number, [success] and
    [invalid] add up to it, [failed] and [skipped] are zero, and there is no
    error entry. *)
Theorem candidate_counters_account_for_every_candidate target w items e w2 :
  fst (fst (validate target w)) = true ->
  mutual target (snd (validate target w)) = (inr (true, items, e), w2) ->
  Forall (fun v => is_string v = true) items ->
  ∃ d, fst (add_all target w) = inr d
       ∧ d !! "error" = None
       ∧ ∃ s i,
           tallies d = Some (Z.of_nat (length items), s, 0, i, 0)
           ∧ s + i = Z.of_nat (length items).
Proof.
  intros Hvalid Hmutual [ids ->]%all_strings.
  pose proof (for_each_add_error ids fresh_results w2) as Herr.
  destruct (for_each_add_tallies ids fresh_results w2 0 0 0 0 0 eq_refl)
    as (t & s & i & Ht & -> & Hsum).
  unfold add_mutual_friends, bind_exn, bind.
  destruct (validate target w) as [[valid msg] w1]. simpl in *. subst valid.
  simpl. rewrite Hmutual. simpl. rewrite length_fmap.
  destruct (length ids =? 0)%nat eqn:Hlen.
  - apply Nat.eqb_eq in Hlen. rewrite Hlen. simpl.
    exists fresh_results. split_and!; [done|done|]. by exists 0, 0.
  - rewrite add_loop_strings. simpl. eexists. split_and!; [done|exact Herr|].
    exists s, i. by rewrite Ht.
Qed.

(** The request log only grows, and only by lookups. *)
Lemma only_lookups_refl w : only_lookups_sent api_key w w.
Proof. exists []. by rewrite app_nil_r. Qed.

Lemma only_lookups_trans w1 w2 w3 :
  only_lookups_sent api_key w1 w2 -> only_lookups_sent api_key w2 w3 ->
  only_lookups_sent api_key w1 w3.
Proof.
  intros (new1 & H1 & Hl1) (new2 & H2 & Hl2). exists (new1 ++ new2).
  split; [by rewrite H2, H1, app_assoc|by apply Forall_app].
Qed.

Lemma only_lookups_same_log w w' :
  sent w' = sent w -> only_lookups_sent api_key w w'.
Proof. intros H. exists []. by rewrite app_nil_r. Qed.

Lemma validate_only_lookups s w :
  only_lookups_sent api_key w (snd (validate s w)).
Proof.
  eexists. split; [apply validate_sent|].
  destruct (format_validb s); repeat constructor. eexists. by left.
Qed.

Lemma fetch_only_lookups id w :
  only_lookups_sent api_key w (snd (fetch id w)).
Proof.
  eexists. split; [apply fetch_sent|]. repeat constructor. eexists. by right.
Qed.

Lemma mutual_only_lookups target w :
  only_lookups_sent api_key w (snd (mutual target w)).
Proof.
  unfold get_mutual_friends, bind.
  pose proof (fetch_only_lookups self_id w) as H1.
  destruct (fetch self_id w) as [[[ok1 l1] e1] w1]. simpl in H1.
  destruct ok1; simpl; [|done].
  pose proof (fetch_only_lookups target w1) as H2.
  destruct (fetch target w1) as [[[ok2 l2] e2] w2]. simpl in H2.
  destruct ok2; simpl; [|by eapply only_lookups_trans].
  unfold bind_exn, bind.
  destruct (potential_values self_id l1 l2); simpl;
    by eapply only_lookups_trans.
Qed.

Lemma attempt_only_lookups id d w :
  only_lookups_sent api_key w (snd (attempt_ id d w)).
Proof.
  rewrite attempt_world. eapply only_lookups_trans; [apply validate_only_lookups|].
  by apply only_lookups_same_log.
Qed.

Lemma for_each_only_lookups {A} (body : A -> gmap string pyval -> M (gmap string pyval)) xs :
  (∀ x d w, only_lookups_sent api_key w (snd (body x d w))) ->
  ∀ d w, only_lookups_sent api_key w (snd (for_each xs body d w)).
Proof.
  intros Hbody. induction xs as [|x xs IH]; intros d w; [apply only_lookups_refl|].
  simpl. unfold bind. specialize (Hbody x d w).
  destruct (body x d w) as [d1 w1]. simpl in Hbody.
  eapply only_lookups_trans; [exact Hbody|apply IH].
Qed.

Lemma add_loop_only_lookups items :
  ∀ d w, only_lookups_sent api_key w
           (snd (add_loop api_key network fault_str items d w)).
Proof.
  induction items as [|v items IH]; intros d w; [apply only_lookups_refl|].
  unfold add_loop. cbn [for_each_raising]. unfold bind at 1.
  assert (only_lookups_sent api_key w
            (snd (add_item api_key network fault_str v d w))) as Hitem.
  { destruct v; try apply only_lookups_refl.
    unfold add_item, bind. pose proof (attempt_only_lookups s (dict_incr "total" d) w).
    by destruct (attempt_ s _ w). }
  destruct (add_item _ _ _ v d w) as [[d1 [e|]] w1]; simpl in Hitem; [done|].
  eapply only_lookups_trans; [exact Hitem|apply IH].
Qed.

Lemma process_line_only_lookups line d w :
  only_lookups_sent api_key w (snd (process_line_ line d w)).
Proof.
  destruct (skipped_line line) eqn:Hskip.
  - rewrite process_line_skipped by done. apply only_lookups_refl.
  - rewrite process_line_counted by done. apply attempt_only_lookups.
Qed.

(** X18. Whatever the file, the target and the answers of the network,
    neither batch method sends anything but lookups: every request either
    one adds to the log is a player-summaries or a friend-list request that
    carries the key, and nothing already in the log is touched. *)
Theorem batches_send_only_lookups :
  (∀ path w, only_lookups_sent api_key w (snd (process_file path w)))
  ∧ (∀ target w, only_lookups_sent api_key w (snd (add_all target w))).
Proof.
  split.
  - intros path w. unfold process_steam_ids_file, bind.
    destruct (path_exists path); simpl; [|apply only_lookups_refl].
    destruct (readlines path) as [e|lines]; simpl; [apply only_lookups_refl|].
    pose proof (for_each_only_lookups process_line_ lines
                  process_line_only_lookups fresh_results w) as H.
    by destruct (for_each lines process_line_ fresh_results w).
  - intros target w. unfold add_mutual_friends, bind_exn, bind.
    pose proof (validate_only_lookups target w) as H1.
    destruct (validate target w) as [[valid msg] w1]. simpl in H1.
    destruct valid; simpl; [|done].
    pose proof (mutual_only_lookups target w1) as H2.
    destruct (mutual target w1) as [[raised|[[ok ids] e]] w2]; simpl in H2;
      [by eapply only_lookups_trans|].
    destruct ok; simpl; [|by eapply only_lookups_trans].
    destruct (length ids =? 0)%nat; [by eapply only_lookups_trans|].
    pose proof (add_loop_only_lookups ids fresh_results w2) as H3.
    destruct (add_loop _ _ _ ids fresh_results w2) as [[d3 [raised|]] w3];
      simpl in *;
      (eapply only_lookups_trans; [exact H1|]);
      (eapply only_lookups_trans; [exact H2|exact H3]).
Qed.

End MoreBatch.


Lemma own_list_failure_witness :
  fst (get_mutual_friends "KEY" Demo.cat Demo.steam Demo.describe Demo.ann
         Demo.world0)
  = inr (false, [],
         "Failed to get your friend list: Friend list is private or user not found")
  ∧ sent (snd (get_mutual_friends "KEY" Demo.cat Demo.steam Demo.describe
                 Demo.ann Demo.world0))
    = [friends_request "KEY" Demo.cat].
Proof.
  apply (own_list_failure_stops_the_selection "KEY" Demo.cat Demo.steam
           Demo.describe Demo.ann Demo.world0). reflexivity.
Defined.

Lemma target_list_witness :
  sent (snd (get_mutual_friends "KEY" Demo.me Demo.steam Demo.describe Demo.cat
               Demo.world0))
  = [friends_request "KEY" Demo.me; friends_request "KEY" Demo.cat]
  ∧ fst (get_mutual_friends "KEY" Demo.me Demo.steam Demo.describe Demo.cat
           Demo.world0)
    = inr (false, [],
           "Failed to get target user's friend list: Friend list is private or user not found").
Proof.
  destruct (target_list_is_fetched_second "KEY" Demo.me Demo.steam
              Demo.describe Demo.cat Demo.world0 eq_refl) as [Hsent Hfail].
  split; [exact Hsent|]. apply Hfail. reflexivity.
Defined.

Lemma file_counters_witness :
  let lines := [""; "# comment"; "12345678901234567"; "notanumber"] in
  let run := process_steam_ids_file "KEY" Demo.steam Demo.a_file
               (Demo.content lines) Demo.describe "steam_ids.txt" Demo.world0 in
  fst run !! "error" = None
  ∧ ∃ s i,
      tallies (fst run)
      = Some (Z.of_nat (length (counted_lines lines)), s, 0, i,
              Z.of_nat (length lines - length (counted_lines lines)))
      ∧ s + i = Z.of_nat (length (counted_lines lines)).
Proof.
  intros lines run.
  apply (file_counters_account_for_every_line "KEY" Demo.steam Demo.a_file
           (Demo.content lines) Demo.describe "steam_ids.txt" Demo.world0 lines);
    reflexivity.
Defined.


Lemma blank_and_comment_lines_witness :
  let lines := [""; "# comment"; "   "; "   # indented comment"] in
  let run := process_steam_ids_file "KEY" Demo.steam Demo.a_file
               (Demo.content lines) Demo.describe "steam_ids.txt" Demo.world0 in
  snd run = Demo.world0 ∧ tallies (fst run) = Some (0, 0, 0, 0, 4).
Proof.
  intros lines run.
  apply (blank_and_comment_lines_cost_nothing "KEY" Demo.steam Demo.a_file
           (Demo.content lines) Demo.describe "steam_ids.txt" Demo.world0 lines);
    try reflexivity.
  repeat constructor.
Defined.

Lemma file_run_duration_witness :
  let lines := ["12345678901234567"; "# comment"; "notanumber"] in
  (clock Demo.world0 + seconds (length (counted_lines lines))
   <= clock (snd (process_steam_ids_file "KEY" (Demo.always 200 (Demo.players []))
                    Demo.a_file (Demo.content lines) Demo.describe
                    "steam_ids.txt" Demo.world0)))%Q.
Proof.
  intros lines.
  apply (file_run_lasts_a_second_per_counted_line "KEY"
           (Demo.always 200 (Demo.players [])) Demo.a_file (Demo.content lines)
           Demo.describe); try reflexivity.
  intros w request. apply Qle_refl.
Defined.


Lemma candidate_counters_witness :
  let run := add_mutual_friends "KEY" Demo.me Demo.steam Demo.describe Demo.ann
               Demo.world0 in
  ∃ d, fst run = inr d
       ∧ d !! "error" = None
       ∧ ∃ s i, tallies d = Some (Z.of_nat (length [JStr Demo.bob]), s, 0, i, 0)
                ∧ s + i = Z.of_nat (length [JStr Demo.bob]).
Proof.
  intros run.
  eapply (candidate_counters_account_for_every_candidate "KEY" Demo.me
            Demo.steam Demo.describe Demo.ann Demo.world0 [JStr Demo.bob] "").
  - reflexivity.
  - vm_compute. reflexivity.
  - by repeat constructor.
Defined.

(** ** The script *)

Lemma is_empty_false (s : string) : PyStr.is_empty s = false <-> s ≠ EmptyString.
Proof. destruct s; simpl; split; congruence. Qed.

(** X19. [load_config] takes from the environment what is set there and
    asks only for what is missing or empty, the key before the identifier;
    what is typed is stripped, and what is not asked for is left unread. *)
Theorem load_config_asks_only_for_what_is_missing
    (environ : gmap string string) (stdin : list string) :
  let key := default "" (environ !! "STEAM_API_KEY") in
  let id := default "" (environ !! "STEAM_ID") in
  (key ≠ "" -> id ≠ "" -> load_config environ stdin = (inr (key, id), stdin))
  ∧ (key = "" -> id ≠ "" -> ∀ line rest, stdin = line :: rest ->
     load_config environ stdin = (inr (PyStr.strip line, id), rest))
  ∧ (key ≠ "" -> id = "" -> ∀ line rest, stdin = line :: rest ->
     load_config environ stdin = (inr (key, PyStr.strip line), rest))
  ∧ (key = "" -> id = "" -> ∀ line1 line2 rest, stdin = line1 :: line2 :: rest ->
     load_config environ stdin
     = (inr (PyStr.strip line1, PyStr.strip line2), rest)).
Proof.
  intros key id. unfold load_config. fold key id. split_and!.
  - intros Hk%is_empty_false Hi%is_empty_false. by rewrite Hk, Hi.
  - intros -> Hi%is_empty_false line rest ->. simpl. by rewrite Hi.
  - intros Hk%is_empty_false -> line rest ->. by rewrite Hk.
  - by intros -> -> line1 line2 rest ->.
Qed.

Section ScriptFacts.

Variable environ : gmap string string.
Variable network : World -> Request -> Q * (pyexn + Response).
Variable path_exists : string -> bool.
Variable readlines : string -> pyexn + list string.
Variable fault_str : fault -> string.
Variable isabs : string -> bool.
Variable join : string -> string -> string.
Variable getcwd : pyexn + string.
Variable log_setup : option pyexn.

Local Abbreviation main_ :=
  (main environ network path_exists readlines fault_str isabs join getcwd log_setup).
Local Abbreviation script_ :=
  (script environ network path_exists readlines fault_str isabs join getcwd
     log_setup).

(** The status with which a batch result ends the script. *)
Local Abbreviation status_of results :=
  (match results !! "error" with None => 0 | Some _ => 1 end).

(** X20. Without a key or without an own identifier the script gives up
    with status 1 before it builds the adder: nothing is sent and the world
    is as it was, also when the prompt was answered with blanks only. *)
Theorem script_refuses_an_empty_configuration stdin w key id rest :
  load_config environ stdin = (inr (key, id), rest) ->
  key = "" ∨ id = "" ->
  script_ stdin w = (1, (rest, w)).
Proof.
  intros Hconfig Hempty. unfold script, main. rewrite Hconfig.
  assert (PyStr.is_empty key || PyStr.is_empty id = true) as ->; [|done].
  destruct Hempty as [-> | ->]; [done|]. by rewrite orb_true_r.
Qed.

(** The common start of both modes. *)
Lemma main_configured stdin w key id line rest :
  load_config environ stdin = (inr (key, id), line :: rest) ->
  key ≠ "" -> id ≠ "" -> log_setup = None ->
  main_ stdin w =
    let w := set_request_times [] w in
    if String.eqb (PyStr.strip line) "2" then
      match input rest with
      | (inl e, stdin) => (Raised e, (stdin, w))
      | (inr line, stdin) =>
          if PyStr.is_empty (PyStr.strip line) then (SystemExit 1, (stdin, w))
          else
            match add_mutual_friends key id network fault_str (PyStr.strip line)
                    w with
            | (inl e, w) => (Raised e, (stdin, w))
            | (inr results, w) => (report results, (stdin, w))
            end
      end
    else
      match input rest with
      | (inl e, stdin) => (Raised e, (stdin, w))
      | (inr line, stdin) =>
          let file_path := PyStr.strip line in
          let file_path :=
            if PyStr.is_empty file_path then "steam_ids.txt" else file_path in
          let resolved :=
            if negb (isabs file_path) then
              match getcwd with
              | inl e => inl e
              | inr cwd => inr (join cwd file_path)
              end
            else inr file_path in
          match resolved with
          | inl e => (Raised e, (stdin, w))
          | inr file_path =>
              let (results, w) :=
                process_steam_ids_file key network path_exists readlines
                  fault_str file_path w in
              (report results, (stdin, w))
          end
      end.
Proof.
  intros Hconfig Hk%is_empty_false Hi%is_empty_false Hlog.
  unfold main. by rewrite Hconfig, Hk, Hi, Hlog.
Qed.



(** X23. In file mode a path that does not exist ends the script with
    status 1 and without a single request: the world is the one the fresh
    adder started from. *)
Theorem script_missing_file_sends_nothing stdin w key id mode line rest name path :
  load_config environ stdin = (inr (key, id), mode :: line :: rest) ->
  key ≠ "" -> id ≠ "" -> log_setup = None ->
  PyStr.strip mode ≠ "2" ->
  name = (if PyStr.is_empty (PyStr.strip line) then "steam_ids.txt"
          else PyStr.strip line) ->
  (isabs name = true ∧ path = name)
  ∨ (isabs name = false ∧ ∃ cwd, getcwd = inr cwd ∧ path = join cwd name) ->
  path_exists path = false ->
  script_ stdin w = (1, (rest, set_request_times [] w)).
Proof.
  intros Hconfig Hk Hi Hlog Hmode -> Hpath Hmissing.
  unfold script. rewrite (main_configured _ _ _ _ _ _ Hconfig Hk Hi Hlog).
  apply String.eqb_neq in Hmode. rewrite Hmode. simpl.
  set (name := if PyStr.is_empty (PyStr.strip line) then _ else _) in *.
  assert ((if negb (isabs name)
           then match getcwd with
                | inl e => inl e
                | inr cwd => inr (join cwd name)
                end
           else inr name) = inr path) as ->.
  { destruct Hpath as [[-> ->]|(-> & cwd & -> & ->)]; done. }
  unfold process_steam_ids_file. rewrite Hmissing. simpl.
  unfold report. by rewrite lookup_singleton_eq.
Qed.


End ScriptFacts.

Lemma load_config_witness :
  load_config DemoScript.configured ["2"; Demo.ann]
  = (inr ("KEY", Demo.me), ["2"; Demo.ann])
  ∧ load_config DemoScript.key_only ["  " +:+ Demo.me +:+ " "; "2"]
    = (inr ("KEY", Demo.me), ["2"])
  ∧ load_config ∅ [" KEY"; Demo.me; "1"] = (inr ("KEY", Demo.me), ["1"]).
Proof.
  split_and!.
  - pose proof (load_config_asks_only_for_what_is_missing DemoScript.configured
                  ["2"; Demo.ann]) as H.
    cbv zeta in H. destruct H as (H & _). apply H; discriminate.
  - pose proof (load_config_asks_only_for_what_is_missing DemoScript.key_only
                  ["  " +:+ Demo.me +:+ " "; "2"]) as H.
    cbv zeta in H. destruct H as (_ & _ & H & _).
    apply (H ltac:(discriminate) eq_refl _ _ eq_refl).
  - pose proof (load_config_asks_only_for_what_is_missing ∅
                  [" KEY"; Demo.me; "1"]) as H.
    cbv zeta in H. destruct H as (_ & _ & _ & H).
    apply (H eq_refl eq_refl _ _ _ eq_refl).
Defined.

Lemma script_refuses_witness :
  DemoScript.run DemoScript.key_only [] ["   "; "2"; Demo.ann]
  = (1, (["2"; Demo.ann], Demo.world0)).
Proof.
  eapply script_refuses_an_empty_configuration; [reflexivity|]. by right.
Defined.



Lemma script_missing_file_witness :
  DemoScript.run DemoScript.configured ["12345678901234567"] ["1"; "other.txt"]
  = (1, ([], Demo.world0)).
Proof.
  unfold DemoScript.run.
  apply (script_missing_file_sends_nothing DemoScript.configured _ _ _ _
           DemoScript.isabs DemoScript.join DemoScript.getcwd None
           ["1"; "other.txt"] Demo.world0 "KEY" Demo.me "1" "other.txt" []
           "other.txt" "/home/user/other.txt"
           eq_refl ltac:(discriminate) ltac:(discriminate) eq_refl
           ltac:(discriminate) eq_refl
           (or_intror (conj eq_refl
                         (ex_intro _ "/home/user" (conj eq_refl eq_refl))))
           eq_refl).
Defined.
